(** * core/ocr.py: field extraction on top of the Tesseract binding

    A shallow embedding of [core/ocr.py].  The six extractors of the module
    are thin retry ladders around two calls of the [pytesseract] binding,
    [image_to_string] and [image_to_data].  The binding is an external
    collaborator: it is taken as an interface ([OcrEngine]) whose calls may
    answer differently each time and may raise.  Everything the module
    itself does (trimming, the digit test, the order of the profiles, the
    try/except wrappers, the confidence average) is written out. *)

From Stdlib Require Import List String Ascii Bool Arith NArith ZArith Lia.
From Stdlib Require Import QArith Qround Qpower Lqa.
Import ListNotations.

Local Close Scope Q_scope.
Local Open Scope string_scope.
Local Open Scope list_scope.

(** * The module and what it runs on *)

(** ** Python strings

    A Python [str] is a sequence of Unicode code points.  A code point is a
    number, a string is a list of them.  Literals of the source are ASCII
    and are written with [py]. *)

Definition pychar : Type := N.
Definition pystr : Type := list pychar.

Definition py (s : string) : pystr :=
  map N_of_ascii (list_ascii_of_string s).

(** [c in range(lo, hi + 1)] on code points. *)
Definition between (lo hi c : N) : bool :=
  ((lo <=? c) && (c <=? hi))%N.

(** [Py_UNICODE_ISSPACE]: the characters [str.strip()] removes when it is
    called without argument.  The ASCII ones are tab, line feed, vertical
    tab, form feed, carriage return, the four separators 0x1C-0x1F and the
    space; the others are the Unicode white space of the interpreter's
    table. *)
Definition isspace_char (c : pychar) : bool :=
  between 9 13 c || between 28 32 c
  || (c =? 133)%N || (c =? 160)%N || (c =? 5760)%N
  || between 8192 8202 c || (c =? 8232)%N || (c =? 8233)%N
  || (c =? 8239)%N || (c =? 8287)%N || (c =? 12288)%N.

(** The per-character test behind [str.isdigit()].  On ASCII it accepts
    exactly [0-9].  Beyond ASCII it follows the digit property of the
    Unicode database shipped with the interpreter; that table is not part
    of this module, so it is the parameter [uni_digit]. *)
Definition isdigit_char (uni_digit : pychar -> bool) (c : pychar) : bool :=
  if (c <? 128)%N then between 48 57 c else uni_digit c.

(** Truth value of a string: [if text:]. *)
Definition truthy (s : pystr) : bool :=
  match s with [] => false | _ :: _ => true end.

(** [str.isdigit()]: every character is a digit and there is at least one. *)
Definition isdigit (uni_digit : pychar -> bool) (s : pystr) : bool :=
  truthy s && forallb (isdigit_char uni_digit) s.

Fixpoint lstrip (s : pystr) : pystr :=
  match s with
  | [] => []
  | c :: r => if isspace_char c then lstrip r else s
  end.

Definition rstrip (s : pystr) : pystr := rev (lstrip (rev s)).

(** [str.strip()] *)
Definition strip (s : pystr) : pystr := rstrip (lstrip s).

(** [sep.join(parts)] *)
Fixpoint join (sep : pystr) (parts : list pystr) : pystr :=
  match parts with
  | [] => []
  | [p] => p
  | p :: rest => p ++ sep ++ join sep rest
  end.

(** The characters [0]..[9] only. *)
Definition ascii_digits_only (s : pystr) : bool := forallb (between 48 57) s.

(** All characters are ASCII. *)
Definition is_ascii (s : pystr) : bool := forallb (fun c => (c <? 128)%N) s.

(** Neither the first nor the last character of [s] is white space, for
    a given notion [ws] of white space. *)
Definition edges_ok (ws : pychar -> bool) (s : pystr) : bool :=
  match s with
  | [] => true
  | c :: _ => negb (ws c) && negb (ws (last s c))
  end.

(** Trimmed for [str.strip()]. *)
Definition trimmed (s : pystr) : bool := edges_ok isspace_char s.

(** The space, the tab and the newline; [isspace_char] covers them. *)
Definition space_tab_newline (c : pychar) : bool :=
  (c =? 32)%N || (c =? 9)%N || (c =? 10)%N.

(** ** Exceptions, floats and the interpreter

    The instances of Python's [Exception] class, which is what the
    handlers of the module catch: the three the module's own expressions
    can raise, [EngineError] for anything the binding or numpy raises,
    with the text [str(e)] gives for it, and [UnicodeEncodeError], which
    [print] raises when the standard output cannot encode a character.
    [result A] is the outcome of an expression that may raise: [inl e] for
    a raised exception, [inr v] for a value. *)

Inductive Exception : Type :=
| EngineError (detail : pystr)
| KeyError (key : string)
| IndexError
| ZeroDivisionError
| UnicodeEncodeError.

(** [str(e)], which is what [f"{e}"] puts into the line.  A [KeyError]
    shows the repr of its key; the message of [UnicodeEncodeError], which
    names the codec and the position, is abridged. *)
Definition exception_text (e : Exception) : pystr :=
  match e with
  | EngineError detail => detail
  | KeyError key => py "'" ++ py key ++ py "'"
  | IndexError => py "list index out of range"
  | ZeroDivisionError => py "division by zero"
  | UnicodeEncodeError => py "codec can't encode character"
  end.

Definition result (A : Type) : Type := (Exception + A)%type.

(** Sequencing of expressions that may raise. *)
Definition and_then {A B} (r : result A) (k : A -> result B) : result B :=
  match r with
  | inl e => inl e
  | inr a => k a
  end.

Notation "'let?' x := r 'in' k" := (and_then r (fun x => k))
  (at level 10, x pattern, r at level 100, k at level 200).

(** [l[i]] for an index [i >= 0]. *)
Definition list_getitem {A} (l : list A) (i : nat) : result A :=
  match nth_error l i with
  | Some a => inr a
  | None => inl IndexError
  end.

(** [enumerate(l)] *)
Definition enumerate {A} (l : list A) : list (nat * A) :=
  combine (seq 0 (List.length l)) l.

(** What the module needs from the interpreter and is not in the module:
    the digit table beyond ASCII, the rounding of float arithmetic, and
    the characters beyond ASCII that the encoding of [sys.stdout] has.
    A Python float is modelled by the rational it denotes; an arithmetic
    operation computes the exact rational and rounds it with [rnd].  The
    float literals of the source, [0.0] and [100.0], denote [0] and [100]
    exactly. *)
Class Interpreter : Type := {
  uni_digit : pychar -> bool;
  rnd : Q -> Q;
  stdout_encodes : pychar -> bool
}.

(** The characters [sys.stdout] can write.  The encodings a standard
    output is opened with all have the ASCII characters; what they have
    beyond ASCII differs (all of Unicode but the surrogates for UTF-8,
    some 120 characters for a Windows code page).  A stream whose error
    handler replaces what its encoding lacks writes every character. *)
Definition encodable `{Interpreter} (c : pychar) : bool :=
  (c <? 128)%N || stdout_encodes c.

(** The laws of rounding the proofs use: rounding is monotone and leaves
    the integers up to 2^53 unchanged.  Exact arithmetic ([rnd q = q])
    obeys them, and so does round-to-nearest on binary64 ([rnd64] below). *)
Record RoundingLaws `{Interpreter} : Prop := {
  rnd_monotone : forall p q : Q, (p <= q)%Q -> (rnd p <= rnd q)%Q;
  rnd_integer : forall z : Z,
    (Z.abs z <= 2 ^ 53)%Z -> (rnd (inject_Z z) == inject_Z z)%Q
}.

Section Floats.
Context `{Interpreter}.

(** [a / b] on two ints: true division, a float. *)
Definition int_truediv (a b : Z) : result Q :=
  if (b =? 0)%Z then inl ZeroDivisionError
  else inr (rnd (inject_Z a / inject_Z b)).

(** [x / y] on two floats. *)
Definition float_truediv (x y : Q) : result Q :=
  if Qeq_bool y 0 then inl ZeroDivisionError
  else inr (rnd (x / y)).

End Floats.

(** [sum(xs)] on a list of ints. *)
Definition sum (xs : list Z) : Z := fold_left Z.add xs 0%Z.

(** [len(xs)] *)
Definition len {A} (xs : list A) : Z := Z.of_nat (List.length xs).

(** ** The OCR binding

    [image_to_data(..., output_type=Output.DICT)] answers a dict of
    columns.  The module reads the columns ['text'] and ['conf'] only; a
    column that is absent raises [KeyError] when it is subscripted. *)
Record OcrData : Type := {
  column_text : option (list pystr);
  column_conf : option (list Z)
}.

(** The binding, numpy and PIL as the module sees them.  A call of the
    engine takes the engine's state and answers a value or an exception
    together with the next state, so two calls with the same arguments may
    answer differently. *)
Class OcrEngine : Type := {
  PilImage : Type;
  NdArray : Type;
  EngineState : Type;
  np_array : PilImage -> result NdArray;
  image_to_string :
    NdArray -> string -> string -> EngineState -> result pystr * EngineState;
  image_to_data :
    NdArray -> string -> string -> EngineState -> result OcrData * EngineState
}.

(** One invocation of the engine, as it is recorded in the trace. *)
Inductive Call : Type :=
| StringCall (config lang : string) (outcome : result pystr)
| DataCall (config lang : string) (outcome : result OcrData).

Definition call_raised (c : Call) : bool :=
  match c with
  | StringCall _ _ (inl _) | DataCall _ _ (inl _) => true
  | _ => false
  end.

(** A line printed by a handler: the fixed prefix and the exception. *)
Record Warning : Type := { warn_prefix : string; warn_cause : Exception }.

(** The text of the line, [f"<prefix>{e}"]. *)
Definition line_text (prefix : string) (e : Exception) : pystr :=
  py prefix ++ exception_text e.

(** The standard output can encode the whole line. *)
Definition writable `{Interpreter} (prefix : string) (e : Exception) : bool :=
  forallb encodable (line_text prefix e).

Section Extractors.
Context `{Interpreter} `{OcrEngine}.

(** The argument of an extractor: a PIL image ([isinstance(pil_img,
    Image.Image)] holds) or anything else, which is passed on as it is. *)
Inductive Image : Type :=
| Pil (p : PilImage)
| Raw (a : NdArray).

(** The world a call runs in: the engine's state, the trace of the
    engine invocations made so far and the lines printed so far. *)
Record World : Type := {
  engine : EngineState;
  calls : list Call;
  stdout : list Warning
}.

(** Statements of the module: a world transformer that ends with a value
    or a raised exception.  A raise keeps the effects done before it. *)
Definition M (A : Type) : Type := World -> result A * World.

Definition ret {A} (a : A) : M A := fun w => (inr a, w).

Definition bind {A B} (c : M A) (k : A -> M B) : M B :=
  fun w =>
    match c w with
    | (inl e, w') => (inl e, w')
    | (inr a, w') => k a w'
    end.

(** [try: body except Exception as e: handler e] *)
Definition try_except {A} (body : M A) (handler : Exception -> M A) : M A :=
  fun w =>
    match body w with
    | (inl e, w') => handler e w'
    | (inr a, w') => (inr a, w')
    end.

Definition lift {A} (r : result A) : M A := fun w => (r, w).

Notation "x <- c ;; k" := (bind c (fun x => k))
  (at level 61, c at next level, right associativity).
Notation "c ;;; k" := (bind c (fun _ => k))
  (at level 61, right associativity).

(** [print(f"<prefix>{e}")].  The text stream encodes the line before
    anything of it is written, so a character it cannot write makes
    [print] raise [UnicodeEncodeError] with nothing written.  Otherwise
    the line is added to the output.  The call is not guarded in the
    source: what it raises leaves the handler.  The stream is taken to be
    open. *)
Definition print (prefix : string) (e : Exception) : M unit :=
  fun w =>
    if writable prefix e then
      (inr tt,
       {| engine := engine w;
          calls := calls w;
          stdout := stdout w
                    ++ [{| warn_prefix := prefix; warn_cause := e |}] |})
    else (inl UnicodeEncodeError, w).

(** [pytesseract.image_to_string(img_np, config=config, lang=lang)] *)
Definition pytesseract_image_to_string
    (img_np : NdArray) (config lang : string) : M pystr :=
  fun w =>
    let (r, s) := image_to_string img_np config lang (engine w) in
    (r, {| engine := s;
           calls := calls w ++ [StringCall config lang r];
           stdout := stdout w |}).

(** [pytesseract.image_to_data(img_np, config=config, lang=lang,
    output_type=pytesseract.Output.DICT)] *)
Definition pytesseract_image_to_data
    (img_np : NdArray) (config lang : string) : M OcrData :=
  fun w =>
    let (r, s) := image_to_data img_np config lang (engine w) in
    (r, {| engine := s;
           calls := calls w ++ [DataCall config lang r];
           stdout := stdout w |}).

(** Lines 19-22 of every extractor: the conversion of the argument,
    [np.array(pil_img)] for a PIL image. *)
Definition array_of (pil_img : Image) : result NdArray :=
  match pil_img with
  | Pil p => np_array p
  | Raw a => inr a
  end.

Definition to_ndarray (pil_img : Image) : M NdArray :=
  lift (array_of pil_img).

(** [for x in xs: body], where the body may [return]: [Some a] is a
    [return a] that leaves the loop and the function, [None] goes on to
    the next element. *)
Fixpoint for_return {X A} (xs : list X) (body : X -> M (option A))
  : M (option A) :=
  match xs with
  | [] => ret None
  | x :: rest =>
      r <- body x ;;
      match r with
      | Some a => ret (Some a)
      | None => for_return rest body
      end
  end.

(** *** extract_text *)

Definition text_config : string :=
  "--oem 3 --psm 6 -c tessedit_char_whitelist=ABCDEFGHIJKLMNOPQRSTUVWXYZabcdefghijklmnopqrstuvwxyz0123456789%().- ".

Definition extract_text (pil_img : Image) : M pystr :=
  try_except
    (img_np <- to_ndarray pil_img ;;
     let config := text_config in
     text <- pytesseract_image_to_string img_np config "eng" ;;
     ret (strip text))
    (fun e =>
       print "[WARNING] OCR extraction failed: " e ;;;
       ret (py "")).

(** *** extract_number *)

Definition number_config : string :=
  "--oem 3 --psm 7 -c tessedit_char_whitelist=0123456789 ".

Definition extract_number (pil_img : Image) : M pystr :=
  try_except
    (img_np <- to_ndarray pil_img ;;
     let config := number_config in
     text <- pytesseract_image_to_string img_np config "eng" ;;
     ret (strip text))
    (fun e =>
       print "[WARNING] Number extraction failed: " e ;;;
       ret (py "")).

(** *** extract_turn_number *)

Definition turn_configs : list string :=
  [ "--oem 3 --psm 8 -c tessedit_char_whitelist=0123456789";
    "--oem 3 --psm 7 -c tessedit_char_whitelist=0123456789";
    "--oem 3 --psm 6 -c tessedit_char_whitelist=0123456789" ].

(** The first loop (lines 65-69). *)
Definition turn_first_pass (img_np : NdArray) (configs : list string)
  : M (option pystr) :=
  for_return configs (fun config =>
    text <- pytesseract_image_to_string img_np config "eng" ;;
    let text := strip text in
    if truthy text && isdigit uni_digit text
    then ret (Some text) else ret None).

(** The second loop (lines 72-76); it is also the loop of
    [extract_mood_text] and of [extract_failure_text]. *)
Definition first_nonempty (img_np : NdArray) (configs : list string)
  : M (option pystr) :=
  for_return configs (fun config =>
    text <- pytesseract_image_to_string img_np config "eng" ;;
    let text := strip text in
    if truthy text then ret (Some text) else ret None).

Definition extract_turn_number (pil_img : Image) : M pystr :=
  try_except
    (img_np <- to_ndarray pil_img ;;
     let configs := turn_configs in
     r <- turn_first_pass img_np configs ;;
     match r with
     | Some text => ret text
     | None =>
         r <- first_nonempty img_np configs ;;
         match r with
         | Some text => ret text
         | None => ret (py "")
         end
     end)
    (fun e =>
       print "[WARNING] Turn number extraction failed: " e ;;;
       ret (py "")).

(** *** extract_mood_text *)

Definition mood_configs : list string :=
  [ "--oem 3 --psm 8 -c tessedit_char_whitelist=ABCDEFGHIJKLMNOPQRSTUVWXYZabcdefghijklmnopqrstuvwxyz";
    "--oem 3 --psm 7 -c tessedit_char_whitelist=ABCDEFGHIJKLMNOPQRSTUVWXYZabcdefghijklmnopqrstuvwxyz";
    "--oem 3 --psm 6 -c tessedit_char_whitelist=ABCDEFGHIJKLMNOPQRSTUVWXYZabcdefghijklmnopqrstuvwxyz" ].

Definition extract_mood_text (pil_img : Image) : M pystr :=
  try_except
    (img_np <- to_ndarray pil_img ;;
     let configs := mood_configs in
     r <- first_nonempty img_np configs ;;
     match r with
     | Some text => ret text
     | None => ret (py "")
     end)
    (fun e =>
       print "[WARNING] Mood text extraction failed: " e ;;;
       ret (py "")).

(** *** extract_failure_text *)

Definition failure_configs : list string :=
  [ "--oem 3 --psm 6 -c tessedit_char_whitelist=ABCDEFGHIJKLMNOPQRSTUVWXYZabcdefghijklmnopqrstuvwxyz0123456789%(). ";
    "--oem 3 --psm 7 -c tessedit_char_whitelist=ABCDEFGHIJKLMNOPQRSTUVWXYZabcdefghijklmnopqrstuvwxyz0123456789%(). ";
    "--oem 3 --psm 8 -c tessedit_char_whitelist=ABCDEFGHIJKLMNOPQRSTUVWXYZabcdefghijklmnopqrstuvwxyz0123456789%(). ";
    "--oem 3 --psm 13 -c tessedit_char_whitelist=ABCDEFGHIJKLMNOPQRSTUVWXYZabcdefghijklmnopqrstuvwxyz0123456789%(). " ].

Definition extract_failure_text (pil_img : Image) : M pystr :=
  try_except
    (img_np <- to_ndarray pil_img ;;
     let configs := failure_configs in
     r <- first_nonempty img_np configs ;;
     match r with
     | Some text => ret text
     | None => ret (py "")
     end)
    (fun e =>
       print "[WARNING] Failure text extraction failed: " e ;;;
       ret (py "")).

(** *** extract_failure_text_with_confidence *)

Definition confidence_config : string :=
  "--oem 3 --psm 6 -c tessedit_char_whitelist=ABCDEFGHIJKLMNOPQRSTUVWXYZabcdefghijklmnopqrstuvwxyz0123456789%(). ".

(** [ocr_data['text']] and [ocr_data['conf']] *)
Definition getitem_text (ocr_data : OcrData) : result (list pystr) :=
  match column_text ocr_data with
  | Some l => inr l
  | None => inl (KeyError "text")
  end.

Definition getitem_conf (ocr_data : OcrData) : result (list Z) :=
  match column_conf ocr_data with
  | Some l => inr l
  | None => inl (KeyError "conf")
  end.

(** The loop of lines 155-158 over [enumerate(ocr_data['text'])], with
    the two lists it appends to. *)
Fixpoint token_loop (ocr_data : OcrData) (items : list (nat * pystr))
    (text_parts : list pystr) (confidences : list Z)
  : result (list pystr * list Z) :=
  match items with
  | [] => inr (text_parts, confidences)
  | (i, text) :: rest =>
      if truthy (strip text) then
        let? conf := getitem_conf ocr_data in
        let? c := list_getitem conf i in
        token_loop ocr_data rest (text_parts ++ [text]) (confidences ++ [c])
      else token_loop ocr_data rest text_parts confidences
  end.

(** Lines 151-165: what the function does with the engine's answer. *)
Definition text_and_confidence (ocr_data : OcrData) : result (pystr * Q) :=
  let? texts := getitem_text ocr_data in
  let? (text_parts, confidences) :=
    token_loop ocr_data (enumerate texts) [] [] in
  match text_parts with
  | _ :: _ =>
      let full_text := strip (join (py " ") text_parts) in
      let? mean := int_truediv (sum confidences) (len confidences) in
      let? avg_confidence := float_truediv mean 100 in
      inr (full_text, avg_confidence)
  | [] => inr (py "", 0%Q)
  end.

Definition extract_failure_text_with_confidence (pil_img : Image)
  : M (pystr * Q) :=
  try_except
    (img_np <- to_ndarray pil_img ;;
     let config := confidence_config in
     ocr_data <- pytesseract_image_to_data img_np config "eng" ;;
     lift (text_and_confidence ocr_data))
    (fun e =>
       print "[WARNING] Failure text extraction with confidence failed: " e ;;;
       ret (py "", 0%Q)).

End Extractors.

(** ** Test doubles

    An interpreter with exact arithmetic, no digit beyond ASCII and a
    UTF-8 standard output, an interpreter with binary64 floats and a
    Latin-1 standard output, an interpreter whose standard output is
    encoded in Windows-1252, an engine that plays back a script of
    answers, and an engine whose answer is a function of the
    configuration. *)

(** UTF-8 encodes every code point but the surrogates. *)
Definition utf8_encodes (c : pychar) : bool := negb (between 55296 57343 c).

Definition exact_interpreter : Interpreter :=
  {| uni_digit := fun _ => false;
     rnd := fun q => q;
     stdout_encodes := utf8_encodes |}.

Section Binary64.
Local Open Scope Q_scope.

(** The integer nearest to [x]; a tie goes to the even one. *)
Definition round_half_even (x : Q) : Z :=
  let f := Qfloor x in
  match Qcompare (x - inject_Z f) (1 # 2) with
  | Lt => f
  | Gt => (f + 1)%Z
  | Eq => if Z.even f then f else (f + 1)%Z
  end.

(** For [q > 0], the exponent [e] with [2^e <= q < 2^(e+1)]. *)
Definition binade (q : Q) : Z :=
  let e0 := (Z.log2 (Qnum q) - Z.log2 (Zpos (Qden q)))%Z in
  if Qle_bool (2 ^ e0) q then e0 else (e0 - 1)%Z.

(** The exponent of the last place of a binary64 float in the binade of
    [q]: 53 significant bits, subnormal below [2^-1022]. *)
Definition exp64 (q : Q) : Z := (Z.max (binade q) (-1022) - 52)%Z.

(** The multiple of [2^e] nearest to [q], ties to even. *)
Definition round_to (e : Z) (q : Q) : Q :=
  inject_Z (round_half_even (q / 2 ^ e)) * 2 ^ e.

(** Round to nearest, ties to even, on binary64.  The exponent is not
    bounded above: the quotients of this module are at most 100. *)
Definition rnd64 (q : Q) : Q :=
  match Qcompare q 0 with
  | Eq => 0
  | Gt => round_to (exp64 q) q
  | Lt => - round_to (exp64 (- q)) (- q)
  end.

End Binary64.

(** An interpreter with binary64 floats.  Its digit table beyond ASCII
    covers Latin-1, where the digits are the superscripts U+00B2, U+00B3
    and U+00B9, for which [str.isdigit()] is documented to answer [True].
    Its standard output is encoded in Latin-1. *)
Definition latin1_interpreter : Interpreter :=
  {| uni_digit := fun c => ((c =? 178) || (c =? 179) || (c =? 185))%N;
     rnd := rnd64;
     stdout_encodes := fun c => (c <? 256)%N |}.

(** The characters of the code page 1252 beyond ASCII: U+00A0 to U+00FF
    at their own place, and the 27 characters of the bytes 0x80 to
    0x9F. *)
Definition cp1252_encodes (c : pychar) : bool :=
  between 160 255 c
  || existsb (N.eqb c)
       [8364; 8218; 402; 8222; 8230; 8224; 8225; 710; 8240; 352; 8249; 338;
        381; 8216; 8217; 8220; 8221; 8226; 8211; 8212; 732; 8482; 353; 8250;
        339; 382; 376]%N.

(** An interpreter whose standard output is encoded in Windows-1252, as
    a redirected output is on a Windows system with that code page. *)
Definition cp1252_interpreter : Interpreter :=
  {| uni_digit := fun _ => false;
     rnd := rnd64;
     stdout_encodes := cp1252_encodes |}.

Record Script : Type := {
  string_answers : list (result pystr);
  data_answers : list (result OcrData)
}.

(** Each call takes the next answer of the script; an exhausted script
    answers the empty string, or a dict without columns. *)
Definition scripted_engine : OcrEngine :=
  {| PilImage := unit;
     NdArray := unit;
     EngineState := Script;
     np_array := fun _ => inr tt;
     image_to_string := fun _ _ _ s =>
       match string_answers s with
       | [] => (inr [], s)
       | r :: rest =>
           (r, {| string_answers := rest; data_answers := data_answers s |})
       end;
     image_to_data := fun _ _ _ s =>
       match data_answers s with
       | [] => (inr {| column_text := None; column_conf := None |}, s)
       | r :: rest =>
           (r, {| string_answers := string_answers s; data_answers := rest |})
       end |}.

Definition table_engine (f : string -> result pystr) : OcrEngine :=
  {| PilImage := unit;
     NdArray := unit;
     EngineState := unit;
     np_array := fun _ => inr tt;
     image_to_string := fun _ config _ s => (f config, s);
     image_to_data := fun _ _ _ s =>
       (inr {| column_text := None; column_conf := None |}, s) |}.

(** The world before the first call. *)
Definition initial_world `{OcrEngine} (s : EngineState) : World :=
  {| engine := s; calls := []; stdout := [] |}.

Definition playing (answers : list (result pystr)) : @World scripted_engine :=
  @initial_world scripted_engine
    {| string_answers := answers; data_answers := [] |}.

Definition playing_data (answers : list (result OcrData))
  : @World scripted_engine :=
  @initial_world scripted_engine
    {| string_answers := []; data_answers := answers |}.

(** A PIL image for the scripted engine. *)
Definition test_image : @Image scripted_engine := @Pil scripted_engine tt.

(** The text of the exception the binding raises when it finds no
    executable at [tesseract_cmd], for a path with a directory named in
    Cyrillic letters. *)
Definition not_found_text : pystr :=
  py "C:\" ++ [1048; 1075; 1088; 1099]%N
  ++ py "\Tesseract-OCR\tesseract.exe is not installed or it's not in your PATH. See README file for more information.".

(** The dict the binding builds from a list of (text, confidence) tokens. *)
Definition tokens (toks : list (pystr * Z)) : OcrData :=
  {| column_text := Some (map fst toks); column_conf := Some (map snd toks) |}.

(** * Vocabulary of the properties

    The definitions below are not in the source: they name what the
    properties speak about (the answers of the engine, the trace a call
    adds, the stopping policies). *)

(** ** The retry ladders against the engine's answers *)

(** The first answer, in order, whose trimmed text is accepted, and the
    number of answers looked at.  An answer that is a raised exception
    ends the scan with that exception. *)
Fixpoint scan (accept : pystr -> bool) (outs : list (result pystr))
  : result (option pystr) * nat :=
  match outs with
  | [] => (inr None, 0)
  | inl e :: _ => (inl e, 1)
  | inr raw :: rest =>
      if accept (strip raw) then (inr (Some (strip raw)), 1)
      else let (r, n) := scan accept rest in (r, S n)
  end.

(** The trace entries of invoking [configs] with answers [outs]. *)
Definition trace (configs : list string) (outs : list (result pystr))
  : list Call :=
  map (fun co => StringCall (fst co) "eng" (snd co)) (combine configs outs).

(** The test of the first loop of [extract_turn_number]. *)
Definition qualifies `{Interpreter} (text : pystr) : bool :=
  truthy text && isdigit uni_digit text.

Section Ladders.
Context `{OcrEngine}.

(** The answers of the engine when it is invoked once with each
    configuration in turn, and the state it is left in. *)
Fixpoint engine_run (a : NdArray) (configs : list string) (s : EngineState)
  : list (result pystr) * EngineState :=
  match configs with
  | [] => ([], s)
  | config :: rest =>
      let (r, s1) := image_to_string a config "eng" s in
      let (rs, s2) := engine_run a rest s1 in
      (r :: rs, s2)
  end.

(** The loop shared by the ladders, for any acceptance test. *)
Definition ladder (accept : pystr -> bool) (img_np : NdArray)
    (configs : list string) : M (option pystr) :=
  for_return configs (fun config =>
    bind (pytesseract_image_to_string img_np config "eng") (fun text =>
    let text := strip text in
    if accept text then ret (Some text) else ret None)).

End Ladders.

(** ** What each extractor computes *)

(** The value a ladder hands to its caller: the accepted text, or the
    empty string when nothing was accepted or an exception was caught. *)
Definition value_of (r : result (option pystr)) : pystr :=
  match r with
  | inr (Some text) => text
  | _ => py ""
  end.

(** The exception an outcome carries, if it is one. *)
Definition cause_of {A} (r : result A) : option Exception :=
  match r with
  | inl e => Some e
  | inr _ => None
  end.

Definition warning (prefix : string) (e : Exception) : Warning :=
  {| warn_prefix := prefix; warn_cause := e |}.

(** What the handler of an extractor makes of a call whose body ended
    with the value [v] or raised [caught] (then [v] is the sentinel).
    With nothing caught the value stands.  With an exception caught the
    handler prints and returns the sentinel; when the line cannot be
    written, the exception of [print] leaves the handler and the call. *)
Definition handled `{Interpreter} {A} (prefix : string)
    (caught : option Exception) (v : A) : result A :=
  match caught with
  | Some e => if writable prefix e then inr v else inl UnicodeEncodeError
  | None => inr v
  end.

(** The lines the handler adds to the output. *)
Definition printed_for `{Interpreter} (prefix : string)
    (caught : option Exception) : list Warning :=
  match caught with
  | Some e => if writable prefix e then [warning prefix e] else []
  | None => []
  end.

(** The call ends with the outcome [r], a value or an exception it lets
    through, having added [new] to the trace and [printed] to the
    output. *)
Definition ends `{OcrEngine} {A} (op : M A) (w : World) (r : result A)
    (new : list Call) (printed : list Warning) : Prop :=
  exists w',
    op w = (r, w') /\
    calls w' = calls w ++ new /\
    stdout w' = stdout w ++ printed.

(** [r] is a value of which [P] holds, unless it is the exception [print]
    raised in a handler, which takes a character the standard output
    cannot encode. *)
Definition unless_print_raised `{Interpreter} {A} (P : A -> Prop)
    (r : result A) : Prop :=
  match r with
  | inr v => P v
  | inl x => x = UnicodeEncodeError /\ exists c, encodable c = false
  end.

Section Runs.
Context `{Interpreter} `{OcrEngine}.

(** The extractors with one call: [extract_text] and [extract_number]. *)
Definition single_call (config prefix : string) (pil_img : Image)
  : M pystr :=
  try_except
    (bind (to_ndarray pil_img) (fun img_np =>
     bind (pytesseract_image_to_string img_np config "eng") (fun text =>
     ret (strip text))))
    (fun e => bind (print prefix e) (fun _ => ret (py ""))).

(** The extractors with one ladder that accepts the first non-empty text:
    [extract_mood_text] and [extract_failure_text]. *)
Definition single_ladder (configs : list string) (prefix : string)
    (pil_img : Image) : M pystr :=
  try_except
    (bind (to_ndarray pil_img) (fun img_np =>
     bind (first_nonempty img_np configs) (fun r =>
     match r with
     | Some text => ret text
     | None => ret (py "")
     end)))
    (fun e => bind (print prefix e) (fun _ => ret (py ""))).

(** The value and the new trace of [extract_turn_number], from the two
    scans. *)
Definition turn_outcome (outs1 outs2 : list (result pystr))
  : pystr * list Call :=
  let (r1, n1) := scan qualifies outs1 in
  match r1 with
  | inr None =>
      let (r2, n2) := scan truthy outs2 in
      (value_of r2,
       trace turn_configs outs1 ++ firstn n2 (trace turn_configs outs2))
  | _ => (value_of r1, firstn n1 (trace turn_configs outs1))
  end.

(** The exception the handler of [extract_turn_number] is entered with,
    from the two scans. *)
Definition turn_cause (outs1 outs2 : list (result pystr))
  : option Exception :=
  match fst (scan qualifies outs1) with
  | inr None => cause_of (fst (scan truthy outs2))
  | r1 => cause_of r1
  end.

Definition turn_prefix : string := "[WARNING] Turn number extraction failed: ".

End Runs.

(** The part of the trace a call added. *)
Definition extends `{OcrEngine} (w w' : World) (new : list Call) : Prop :=
  calls w' = calls w ++ new.

(** What holds of every text extractor: it invoked the engine at most
    [bound] times; the value it returns is trimmed, and is the empty
    string when an invocation raised; the only exception it lets through
    is the one of the [print] in its handler. *)
Definition fail_soft `{Interpreter} `{OcrEngine} (bound : nat)
    (op : M pystr) (w : World) : Prop :=
  exists r w' new,
    op w = (r, w') /\ extends w w' new /\
    List.length new <= bound /\
    unless_print_raised
      (fun v => trimmed v = true /\
                (existsb call_raised new = true -> v = py "")) r.

(** ** The token loop and the average *)

(** A token is kept when its trimmed text is not empty. *)
Definition kept (tok : pystr * Z) : bool := truthy (strip (fst tok)).

Section Average.
Context `{Interpreter}.

(** The average of line 162, when its divisions do not raise. *)
Definition average (confidences : list Z) : Q :=
  rnd (rnd (inject_Z (sum confidences) / inject_Z (len confidences)) / 100).

End Average.

Section ConfidenceRun.
Context `{Interpreter} `{OcrEngine}.

(** The pair the function answers for an outcome of its engine call,
    when its handler does not raise. *)
Definition confidence_value (o : result OcrData) : pystr * Q :=
  match o with
  | inr d =>
      match text_and_confidence d with
      | inr v => v
      | inl _ => (py "", 0%Q)
      end
  | inl _ => (py "", 0%Q)
  end.

(** The exception its handler is entered with: the one of the engine
    call, or the one of the computation on the engine's answer. *)
Definition confidence_cause (o : result OcrData) : option Exception :=
  match o with
  | inr d => cause_of (text_and_confidence d)
  | inl e => Some e
  end.

End ConfidenceRun.

(** ** Reading a configuration string

    The configurations are the command-line strings of the source.  The
    page segmentation mode is the word after [--psm], the whitelist is the
    text after [tessedit_char_whitelist=]. *)

Definition after (key config : string) : option string :=
  match String.index 0 key config with
  | Some i =>
      let start := i + String.length key in
      Some (String.substring start (String.length config - start) config)
  | None => None
  end.

Definition first_word (s : string) : string :=
  match String.index 0 " " s with
  | Some i => String.substring 0 i s
  | None => s
  end.

Definition psm_of (config : string) : option string :=
  option_map first_word (after "--psm " config).

Definition whitelist_of (config : string) : option string :=
  after "tessedit_char_whitelist=" config.

(** The segmentation modes the module uses, as its comments name them. *)
Inductive SegMode : Type := UniformBlock | SingleLine | SingleWord | RawLine.

Definition mode_of (config : string) : option SegMode :=
  match psm_of config with
  | Some "6" => Some UniformBlock
  | Some "7" => Some SingleLine
  | Some "8" => Some SingleWord
  | Some "13" => Some RawLine
  | _ => None
  end.

Definition digits_whitelist : string := "0123456789".

Definition failure_whitelist : string :=
  "ABCDEFGHIJKLMNOPQRSTUVWXYZabcdefghijklmnopqrstuvwxyz0123456789%(). ".

(** ** The vocabulary of the stopping policies *)

(** Answer number [k] (from 0) is a text whose trimmed form is accepted,
    and every answer before it is a text whose trimmed form is not. *)
Definition first_accepted (accept : pystr -> bool)
    (outs : list (result pystr)) (k : nat) (raw : pystr) : Prop :=
  nth_error outs k = Some (inr raw) /\
  accept (strip raw) = true /\
  forall j, j < k ->
    exists raw', nth_error outs j = Some (inr raw') /\
                 accept (strip raw') = false.

(** Every answer is a text whose trimmed form is not accepted. *)
Definition all_rejected (accept : pystr -> bool)
    (outs : list (result pystr)) : Prop :=
  forall o, In o outs ->
    exists raw, o = inr raw /\ accept (strip raw) = false.

(** The call answers [v] and adds [new] to the trace. *)
Definition returns `{OcrEngine} {A} (op : M A) (w : World) (v : A)
    (new : list Call) : Prop :=
  exists w', op w = (inr v, w') /\ calls w' = calls w ++ new.

Definition is_letter (c : pychar) : bool :=
  between 65 90 c || between 97 122 c.

(** ** All six extractors *)

Section AllExtractors.
Context `{Interpreter} `{OcrEngine}.

(** The five extractors that answer a text. *)
Definition text_extractors (pil_img : Image) : list (M pystr) :=
  [ extract_text pil_img;
    extract_number pil_img;
    extract_turn_number pil_img;
    extract_mood_text pil_img;
    extract_failure_text pil_img ].

End AllExtractors.

(** At most [k] invocations of the engine are added to the trace. *)
Definition invocations_at_most `{OcrEngine} {A} (k : nat) (op : M A)
    (w : World) : Prop :=
  exists new, extends w (snd (op w)) new /\ List.length new <= k.

(** ** One pass instead of two *)

Section SinglePass.
Context `{Interpreter} `{OcrEngine}.

(** The single-pass variant of [extract_turn_number], written from its
    description and not from the source: each profile is invoked once,
    in the same order; a trimmed answer that is non-empty and all digits
    is returned at once, any other trimmed answer is recorded. *)
Fixpoint single_pass_loop (img_np : NdArray) (configs : list string)
    (recorded : list pystr) : M (option pystr * list pystr) :=
  match configs with
  | [] => ret (None, recorded)
  | config :: rest =>
      bind (pytesseract_image_to_string img_np config "eng") (fun text =>
      let text := strip text in
      if truthy text && isdigit uni_digit text
      then ret (Some text, recorded)
      else single_pass_loop img_np rest (recorded ++ [text]))
  end.

(** The first recorded answer that is not empty, else the empty string. *)
Definition first_recorded (recorded : list pystr) : pystr :=
  match find truthy recorded with
  | Some text => text
  | None => py ""
  end.

Definition extract_turn_number_single_pass (pil_img : Image) : M pystr :=
  try_except
    (bind (to_ndarray pil_img) (fun img_np =>
     bind (single_pass_loop img_np turn_configs []) (fun r =>
     match r with
     | (Some text, _) => ret text
     | (None, recorded) => ret (first_recorded recorded)
     end)))
    (fun e =>
       bind (print "[WARNING] Turn number extraction failed: " e)
            (fun _ => ret (py ""))).

(** The engine's answer to [image_to_string] is a function of the image
    and the configuration. *)
Definition deterministic : Prop :=
  exists f : NdArray -> string -> string -> result pystr,
    forall a config lang s,
      fst (image_to_string a config lang s) = f a config lang.

(** What the single pass makes of the answers [outs]. *)
Fixpoint record_scan (outs : list (result pystr)) (recorded : list pystr)
  : result (option pystr * list pystr) :=
  match outs with
  | [] => inr (None, recorded)
  | inl e :: _ => inl e
  | inr raw :: rest =>
      if qualifies (strip raw) then inr (Some (strip raw), recorded)
      else record_scan rest (recorded ++ [strip raw])
  end.

Definition single_pass_value (r : result (option pystr * list pystr))
  : pystr :=
  match r with
  | inl _ => py ""
  | inr (Some text, _) => text
  | inr (None, recorded) => first_recorded recorded
  end.

End SinglePass.

(** The value of the two passes when both rounds get the same answers. *)
Definition two_pass_value `{Interpreter} (outs : list (result pystr)) : pystr :=
  fst (turn_outcome outs outs).

(** An engine that answers by configuration: "Turn" for the single-word
    profile, " 4 turns" for the single-line profile, nothing for any
    other.  No answer is all digits; both functions return "Turn". *)
Definition by_profile (config : string) : result pystr :=
  match mode_of config with
  | Some SingleWord => inr (py "Turn")
  | Some SingleLine => inr (py " 4 turns")
  | _ => inr (py "")
  end.

(** ** Vocabulary of the further properties *)

(** The exception an invocation raised, if it raised. *)
Definition raised_cause (c : Call) : option Exception :=
  match c with
  | StringCall _ _ (inl e) | DataCall _ _ (inl e) => Some e
  | _ => None
  end.

(** The last invocation of a trace. *)
Fixpoint last_call (new : list Call) : option Call :=
  match new with
  | [] => None
  | c :: rest =>
      match rest with
      | [] => Some c
      | _ :: _ => last_call rest
      end
  end.

Definition last_cause (new : list Call) : option Exception :=
  match last_call new with
  | Some c => raised_cause c
  | None => None
  end.

(** The text the last invocation answered, if it answered a text. *)
Definition last_answer (new : list Call) : option pystr :=
  match last_call new with
  | Some (StringCall _ _ (inr raw)) => Some raw
  | _ => None
  end.

(** What an invocation asked for: token-level output or not, the
    configuration and the language. *)
Definition call_request (c : Call) : bool * string * string :=
  match c with
  | StringCall config lang _ => (false, config, lang)
  | DataCall config lang _ => (true, config, lang)
  end.

(** The requests of plain-text invocations with [configs], in order. *)
Definition string_requests (configs : list string)
  : list (bool * string * string) :=
  map (fun config => (false, config, "eng")) configs.

(** Only the last invocation of a trace may have raised. *)
Definition raise_is_last (new : list Call) : bool :=
  forallb (fun c => negb (call_raised c)) (removelast new).

(** The call answers [v], adds [new] to the trace and [printed] to the
    output. *)
Definition logs `{OcrEngine} {A} (op : M A) (w : World) (v : A)
    (new : list Call) (printed : list Warning) : Prop :=
  exists w',
    op w = (inr v, w') /\
    calls w' = calls w ++ new /\
    stdout w' = stdout w ++ printed.

(** [s] is white space only. *)
Definition blank (s : pystr) : bool := forallb isspace_char s.

Section Tables.
Context `{Interpreter} `{OcrEngine}.

(** The five text extractors, each with the prefix of the line its handler
    prints and the profiles it may invoke, in the order it may invoke
    them. *)
Definition text_extractor_table (pil_img : Image)
  : list (M pystr * string * list string) :=
  [ (extract_text pil_img,
     "[WARNING] OCR extraction failed: ", [text_config]);
    (extract_number pil_img,
     "[WARNING] Number extraction failed: ", [number_config]);
    (extract_turn_number pil_img,
     "[WARNING] Turn number extraction failed: ", turn_configs ++ turn_configs);
    (extract_mood_text pil_img,
     "[WARNING] Mood text extraction failed: ", mood_configs);
    (extract_failure_text pil_img,
     "[WARNING] Failure text extraction failed: ", failure_configs) ].

(** The exception the handler of a call is entered with: the one of the
    conversion of the image, or the one of the last invocation. *)
Definition caught_by (pil_img : Image) (new : list Call)
  : option Exception :=
  match array_of pil_img with
  | inl e => Some e
  | inr _ => last_cause new
  end.

(** What one call of a text extractor does, seen from outside: its
    outcome, the invocations it adds and the lines it prints.  [v] is the
    value the call returns when its handler does not raise. *)
Definition behaves (pil_img : Image) (w : World)
    (entry : M pystr * string * list string) : Prop :=
  let '(op, prefix, profiles) := entry in
  exists v new,
    ends op w (handled prefix (caught_by pil_img new) v) new
      (printed_for prefix (caught_by pil_img new)) /\
    map call_request new
    = firstn (List.length new) (string_requests profiles) /\
    raise_is_last new = true /\
    (forall e, array_of pil_img = inl e -> new = [] /\ v = py "") /\
    (forall a, array_of pil_img = inr a -> 1 <= List.length new) /\
    (last_cause new <> None -> v = py "") /\
    (truthy v = true ->
     exists raw, last_answer new = Some raw /\ v = strip raw).

(** The answers of [image_to_data] are a function of the image and the
    configuration. *)
Definition deterministic_data : Prop :=
  exists g : NdArray -> string -> string -> result OcrData,
    forall a config lang s,
      fst (image_to_data a config lang s) = g a config lang.

End Tables.

(** The prefix of the line the handler of
    [extract_failure_text_with_confidence] prints. *)
Definition confidence_prefix : string :=
  "[WARNING] Failure text extraction with confidence failed: ".


(** An engine whose two answers are functions of the configuration. *)
Definition fixed_engine (f : string -> result pystr)
    (g : string -> result OcrData) : OcrEngine :=
  {| PilImage := unit;
     NdArray := unit;
     EngineState := nat;
     np_array := fun _ => inr tt;
     image_to_string := fun _ config _ s => (f config, S s);
     image_to_data := fun _ config _ s => (g config, S s) |}.

Definition mood_whitelist : string :=
  "ABCDEFGHIJKLMNOPQRSTUVWXYZabcdefghijklmnopqrstuvwxyz".

Definition text_whitelist : string :=
  "ABCDEFGHIJKLMNOPQRSTUVWXYZabcdefghijklmnopqrstuvwxyz0123456789%().- ".


(** * Properties *)

Ltac run_monad :=
  unfold try_except, bind, to_ndarray, lift, ret, print,
    pytesseract_image_to_string, pytesseract_image_to_data.

(** ** Facts about strings *)

Lemma lstrip_head (s : pystr) (c : pychar) (r : pystr) :
  lstrip s = c :: r -> isspace_char c = false.
Proof.
  induction s as [|x s IH]; simpl; [discriminate|].
  destruct (isspace_char x) eqn:Hx; [exact IH|].
  intros E; injection E as <- _; exact Hx.
Qed.

Lemma lstrip_split (s : pystr) :
  exists p, s = p ++ lstrip s /\ forallb isspace_char p = true.
Proof.
  induction s as [|x s [p [E Hp]]]; simpl.
  - exists []; split; reflexivity.
  - destruct (isspace_char x) eqn:Hx.
    + exists (x :: p); simpl; rewrite Hx, Hp; split; [now rewrite <- E|reflexivity].
    + exists []; split; reflexivity.
Qed.

Lemma last_snoc {A} (l : list A) (x d : A) : last (l ++ [x]) d = x.
Proof.
  induction l as [|y l IH]; [reflexivity|].
  simpl; destruct (l ++ [x]) eqn:E; [destruct l; discriminate|exact IH].
Qed.

Lemma strip_trimmed (s : pystr) : trimmed (strip s) = true.
Proof.
  unfold strip, rstrip, trimmed.
  set (t := lstrip s).
  destruct (lstrip_split (rev t)) as [p [E _]].
  destruct (lstrip (rev t)) as [|c r] eqn:U; [reflexivity|].
  pose proof (lstrip_head _ _ _ U) as Hc.
  assert (T : t = rev r ++ [c] ++ rev p).
  { rewrite <- (rev_involutive t), E, rev_app_distr; simpl.
    now rewrite <- app_assoc. }
  simpl rev.
  destruct (rev r ++ [c]) as [|h tl] eqn:R; [destruct (rev r); discriminate|].
  unfold edges_ok.
  rewrite <- R, last_snoc, Hc.
  assert (Hh : isspace_char h = false).
  { apply (lstrip_head s h (tl ++ rev p)).
    fold t; rewrite T.
    change ([c] ++ rev p) with ([c] ++ rev p).
    rewrite app_assoc, R; reflexivity. }
  now rewrite Hh.
Qed.

Lemma plain_space_is_space (c : pychar) :
  space_tab_newline c = true -> isspace_char c = true.
Proof.
  unfold space_tab_newline; intros Hc.
  rewrite !orb_true_iff, !N.eqb_eq in Hc.
  destruct Hc as [[-> | ->] | ->]; reflexivity.
Qed.

Lemma trimmed_plain (s : pystr) :
  trimmed s = true -> edges_ok space_tab_newline s = true.
Proof.
  unfold trimmed, edges_ok; destruct s as [|c r]; [reflexivity|].
  rewrite !andb_true_iff, !negb_true_iff.
  intros [H1 H2]; split.
  - destruct (space_tab_newline c) eqn:E; [|reflexivity].
    apply plain_space_is_space in E; congruence.
  - destruct (space_tab_newline (last (c :: r) c)) eqn:E; [|reflexivity].
    apply plain_space_is_space in E; congruence.
Qed.

Lemma isdigit_char_ascii `{Interpreter} (c : pychar) :
  (c <? 128)%N = true -> isdigit_char uni_digit c = between 48 57 c.
Proof. unfold isdigit_char; now intros ->. Qed.

Lemma isdigit_ascii_digits `{Interpreter} (s : pystr) :
  isdigit uni_digit s = true -> is_ascii s = true ->
  ascii_digits_only s = true.
Proof.
  unfold isdigit, is_ascii, ascii_digits_only.
  rewrite andb_true_iff; intros [_ Hd] Ha.
  rewrite forallb_forall in *; intros c Hc.
  rewrite <- (isdigit_char_ascii c (Ha c Hc)); auto.
Qed.

(** ** The ladders follow the scan of the engine's answers *)

Lemma scan_none accept outs n :
  scan accept outs = (inr None, n) ->
  n = List.length outs /\
  forall o, In o outs -> exists raw, o = inr raw /\ accept (strip raw) = false.
Proof.
  revert n; induction outs as [|[e|raw] outs IH]; simpl; intros n E.
  - injection E as <-; split; [reflexivity|intros o []].
  - discriminate.
  - destruct (accept (strip raw)) eqn:A; [discriminate|].
    destruct (scan accept outs) as [r' n'] eqn:S'.
    injection E as -> <-.
    destruct (IH _ eq_refl) as [-> Hall]; split; [reflexivity|].
    intros o [<-|Ho]; [now exists raw|auto].
Qed.

Lemma scan_some accept outs t n :
  scan accept outs = (inr (Some t), n) -> accept t = true.
Proof.
  revert n; induction outs as [|[e|raw] outs IH]; simpl; intros n E;
    try discriminate.
  destruct (accept (strip raw)) eqn:A.
  - injection E as <- _; exact A.
  - destruct (scan accept outs) as [r' n'] eqn:S'.
    injection E as -> _; eauto.
Qed.

(** An invocation among those looked at raised exactly when the scan ends
    with an exception. *)
Lemma scan_raised accept configs outs r n :
  List.length configs = List.length outs ->
  scan accept outs = (r, n) ->
  existsb call_raised (firstn n (trace configs outs)) = true <->
  exists e, r = inl e.
Proof.
  revert configs r n; induction outs as [|[e|raw] outs IH];
    intros [|c configs] r n L E; simpl in *; try discriminate.
  - injection E as <- <-; simpl; split; [discriminate|intros [e ?]; discriminate].
  - injection E as <- <-; simpl; split; [now exists e|reflexivity].
  - destruct (accept (strip raw)).
    + injection E as <- <-; simpl; split; [discriminate|intros [e ?]; discriminate].
    + destruct (scan accept outs) as [r' n'] eqn:S'.
      injection E as <- <-; simpl.
      apply IH; [now injection L|reflexivity].
Qed.

Section LaddersFacts.
Context `{OcrEngine}.

Lemma engine_run_length a configs s outs s' :
  engine_run a configs s = (outs, s') ->
  List.length outs = List.length configs.
Proof.
  revert s outs s'; induction configs as [|c configs IH]; simpl;
    intros s outs s' E.
  - now injection E as <- _.
  - destruct (image_to_string a c "eng" s) as [r s1].
    destruct (engine_run a configs s1) as [rs s2] eqn:R.
    injection E as <- _; simpl; f_equal; eauto.
Qed.

Lemma ladder_scan accept a configs :
  forall w outs s' r n,
    engine_run a configs (engine w) = (outs, s') ->
    scan accept outs = (r, n) ->
    exists w',
      ladder accept a configs w = (r, w') /\
      calls w' = calls w ++ firstn n (trace configs outs) /\
      stdout w' = stdout w /\
      (r = inr None -> engine w' = s').
Proof.
  induction configs as [|c configs IH]; intros w outs s' r n E S.
  - simpl in E; injection E as <- <-; simpl in S; injection S as <- <-.
    exists w; simpl; unfold ret; rewrite app_nil_r; auto.
  - simpl in E.
    destruct (image_to_string a c "eng" (engine w)) as [o s1] eqn:C.
    destruct (engine_run a configs s1) as [rs s2] eqn:R.
    injection E as <- <-.
    unfold ladder; simpl for_return; fold (ladder accept a configs).
    unfold bind at 1, bind at 1, pytesseract_image_to_string; rewrite C.
    destruct o as [e|raw]; simpl in S.
    + injection S as <- <-.
      eexists; split; [reflexivity|]; simpl.
      repeat split; intros; discriminate.
    + destruct (accept (strip raw)) eqn:A.
      * injection S as <- <-.
        unfold ret; eexists; split; [reflexivity|]; simpl.
        repeat split; intros; discriminate.
      * destruct (scan accept rs) as [r' n'] eqn:S'.
        injection S as <- <-.
        unfold ret at 1.
        match goal with |- context [ladder accept a configs ?w1] =>
          destruct (IH w1 rs s2 r' n' R S') as [w' [L [Hc [Ho He]]]]
        end.
        exists w'; rewrite L; split; [reflexivity|].
        simpl in Hc, Ho; rewrite Hc, <- app_assoc; simpl.
        repeat split; auto.
Qed.

End LaddersFacts.

Section RunsFacts.
Context `{Interpreter} `{OcrEngine}.

Lemma extract_text_shape :
  extract_text = single_call text_config "[WARNING] OCR extraction failed: ".
Proof. reflexivity. Qed.

Lemma extract_number_shape :
  extract_number =
  single_call number_config "[WARNING] Number extraction failed: ".
Proof. reflexivity. Qed.

Lemma extract_mood_text_shape :
  extract_mood_text =
  single_ladder mood_configs "[WARNING] Mood text extraction failed: ".
Proof. reflexivity. Qed.

Lemma extract_failure_text_shape :
  extract_failure_text =
  single_ladder failure_configs "[WARNING] Failure text extraction failed: ".
Proof. reflexivity. Qed.

Lemma first_nonempty_ladder a configs :
  first_nonempty a configs = ladder truthy a configs.
Proof. reflexivity. Qed.

Lemma turn_first_pass_ladder a configs :
  turn_first_pass a configs = ladder qualifies a configs.
Proof. reflexivity. Qed.

(** A [try] whose handler prints and returns the sentinel, from what its
    body does. *)
Lemma try_except_ends {A} (body : M A) (prefix : string) (sentinel : A)
    (w w1 : World) (r : result A) :
  body w = (r, w1) ->
  stdout w1 = stdout w ->
  exists w',
    try_except body
      (fun e => bind (print prefix e) (fun _ => ret sentinel)) w
    = (handled prefix (cause_of r)
         (match r with inr v => v | inl _ => sentinel end), w') /\
    calls w' = calls w1 /\
    stdout w' = stdout w ++ printed_for prefix (cause_of r).
Proof.
  intros B Ho; unfold try_except; rewrite B.
  destruct r as [e|v]; simpl.
  - unfold bind, print, ret.
    destruct (writable prefix e); simpl;
      eexists; (split; [reflexivity|]); unfold warning; simpl;
      rewrite ?app_nil_r; split; congruence.
  - exists w1; rewrite app_nil_r; auto.
Qed.

(** When the conversion of the argument raises, the engine is not
    invoked and the handler is entered. *)
Lemma single_call_unconverted config prefix pil_img w e :
  array_of pil_img = inl e ->
  ends (single_call config prefix pil_img) w
    (handled prefix (Some e) (py "")) [] (printed_for prefix (Some e)).
Proof.
  intros A; unfold ends, single_call.
  destruct (try_except_ends
              (bind (to_ndarray pil_img) (fun img_np =>
               bind (pytesseract_image_to_string img_np config "eng")
                 (fun text => ret (strip text))))
              prefix (py "") w w (inl e)) as [w' [E [Hc Ho]]];
    [unfold bind, to_ndarray, lift; now rewrite A|reflexivity|].
  exists w'; rewrite app_nil_r; auto.
Qed.

Lemma single_call_run config prefix pil_img w a o s :
  array_of pil_img = inr a ->
  image_to_string a config "eng" (engine w) = (o, s) ->
  ends (single_call config prefix pil_img) w
    (handled prefix (cause_of o)
       (match o with inr raw => strip raw | inl _ => py "" end))
    [StringCall config "eng" o] (printed_for prefix (cause_of o)).
Proof.
  intros A C; unfold ends, single_call.
  destruct (try_except_ends
              (bind (to_ndarray pil_img) (fun img_np =>
               bind (pytesseract_image_to_string img_np config "eng")
                 (fun text => ret (strip text))))
              prefix (py "") w
              {| engine := s;
                 calls := calls w ++ [StringCall config "eng" o];
                 stdout := stdout w |}
              (match o with inr raw => inr (strip raw) | inl e => inl e end))
    as [w' [E [Hc Ho]]];
    [run_monad; rewrite A, C; now destruct o|reflexivity|].
  exists w'; destruct o; auto.
Qed.

Lemma single_ladder_unconverted configs prefix pil_img w e :
  array_of pil_img = inl e ->
  ends (single_ladder configs prefix pil_img) w
    (handled prefix (Some e) (py "")) [] (printed_for prefix (Some e)).
Proof.
  intros A; unfold ends, single_ladder.
  destruct (try_except_ends
              (bind (to_ndarray pil_img) (fun img_np =>
               bind (first_nonempty img_np configs) (fun r =>
               match r with
               | Some text => ret text
               | None => ret (py "")
               end)))
              prefix (py "") w w (inl e)) as [w' [E [Hc Ho]]];
    [unfold bind, to_ndarray, lift; now rewrite A|reflexivity|].
  exists w'; rewrite app_nil_r; auto.
Qed.

Lemma single_ladder_run configs prefix pil_img w a outs s r n :
  array_of pil_img = inr a ->
  engine_run a configs (engine w) = (outs, s) ->
  scan truthy outs = (r, n) ->
  ends (single_ladder configs prefix pil_img) w
    (handled prefix (cause_of r) (value_of r))
    (firstn n (trace configs outs)) (printed_for prefix (cause_of r)).
Proof.
  intros A R S.
  destruct (ladder_scan truthy a configs w _ _ _ _ R S)
    as [w1 [L [Hc1 [Ho1 _]]]].
  change (ladder truthy a configs w) with (first_nonempty a configs w) in L.
  unfold ends, single_ladder.
  destruct (try_except_ends
              (bind (to_ndarray pil_img) (fun img_np =>
               bind (first_nonempty img_np configs) (fun r =>
               match r with
               | Some text => ret text
               | None => ret (py "")
               end)))
              prefix (py "") w w1
              (match r with
               | inr (Some text) => inr text
               | inr None => inr (py "")
               | inl e => inl e
               end))
    as [w' [E [Hc Ho]]];
    [unfold bind, to_ndarray, lift; rewrite A, L; now destruct r as [e|[t|]]
    |exact Ho1|].
  exists w'.
  destruct r as [e|[t|]];
    (split; [exact E|split; [congruence|exact Ho]]).
Qed.

Lemma extract_turn_number_unconverted pil_img w e :
  array_of pil_img = inl e ->
  ends (extract_turn_number pil_img) w
    (handled turn_prefix (Some e) (py "")) []
    (printed_for turn_prefix (Some e)).
Proof.
  intros A; unfold ends, extract_turn_number.
  match goal with |- context [try_except ?body _] =>
    destruct (try_except_ends body turn_prefix (py "") w w (inl e))
      as [w' [E [Hc Ho]]];
      [unfold bind, to_ndarray, lift; now rewrite A|reflexivity|]
  end.
  exists w'; rewrite app_nil_r; auto.
Qed.

Lemma extract_turn_number_run pil_img w a outs1 s1 outs2 s2 :
  array_of pil_img = inr a ->
  engine_run a turn_configs (engine w) = (outs1, s1) ->
  engine_run a turn_configs s1 = (outs2, s2) ->
  ends (extract_turn_number pil_img) w
    (handled turn_prefix (turn_cause outs1 outs2)
       (fst (turn_outcome outs1 outs2)))
    (snd (turn_outcome outs1 outs2))
    (printed_for turn_prefix (turn_cause outs1 outs2)).
Proof.
  intros A R1 R2; unfold turn_outcome, turn_cause.
  destruct (scan qualifies outs1) as [r1 n1] eqn:S1.
  destruct (ladder_scan qualifies a turn_configs w _ _ _ _ R1 S1)
    as [w1 [L1 [Hc1 [Ho1 He1]]]].
  change (ladder qualifies a turn_configs w)
    with (turn_first_pass a turn_configs w) in L1.
  unfold ends, extract_turn_number.
  destruct r1 as [e|[t|]]; cbn [fst snd].
  - match goal with |- context [try_except ?body _] =>
      destruct (try_except_ends body turn_prefix (py "") w w1 (inl e))
        as [w' [E [Hc Ho]]];
        [unfold bind, to_ndarray, lift; now rewrite A, L1|exact Ho1|]
    end.
    exists w'; split; [exact E|split; [congruence|exact Ho]].
  - match goal with |- context [try_except ?body _] =>
      destruct (try_except_ends body turn_prefix (py "") w w1 (inr t))
        as [w' [E [Hc Ho]]];
        [unfold bind, to_ndarray, lift; now rewrite A, L1|exact Ho1|]
    end.
    exists w'; split; [exact E|split; [congruence|exact Ho]].
  - destruct (scan truthy outs2) as [r2 n2] eqn:S2.
    specialize (He1 eq_refl).
    rewrite <- He1 in R2.
    destruct (ladder_scan truthy a turn_configs w1 _ _ _ _ R2 S2)
      as [w2 [L2 [Hc2 [Ho2 _]]]].
    change (ladder truthy a turn_configs w1)
      with (first_nonempty a turn_configs w1) in L2.
    assert (Hc12 : calls w2 = calls w ++
              trace turn_configs outs1 ++ firstn n2 (trace turn_configs outs2)).
    { rewrite Hc2, Hc1, <- app_assoc; f_equal; f_equal.
      destruct (scan_none _ _ _ S1) as [-> _].
      apply firstn_all2; unfold trace; rewrite length_map, length_combine.
      lia. }
    match goal with |- context [try_except ?body _] =>
      destruct (try_except_ends body turn_prefix (py "") w w2
                  (match r2 with
                   | inr (Some text) => inr text
                   | inr None => inr (py "")
                   | inl e => inl e
                   end))
        as [w' [E [Hc Ho]]];
        [unfold bind, to_ndarray, lift; rewrite A, L1;
         unfold ret at 1; rewrite L2; now destruct r2 as [e|[t|]]
        |congruence|]
    end.
    exists w'; cbn [fst snd].
    destruct r2 as [e|[t|]];
      (split; [exact E|split; [congruence|exact Ho]]).
Qed.

End RunsFacts.

(** ** Trimmed values, bounded traces, caught exceptions *)

Lemma scan_trimmed accept outs r n :
  scan accept outs = (r, n) -> trimmed (value_of r) = true.
Proof.
  revert r n; induction outs as [|[e|raw] outs IH]; simpl; intros r n E.
  - now injection E as <- _.
  - now injection E as <- _.
  - destruct (accept (strip raw)).
    + injection E as <- _; apply strip_trimmed.
    + destruct (scan accept outs) as [r' n'] eqn:S'.
      injection E as <- _; eauto.
Qed.

Lemma trace_length configs outs :
  List.length outs = List.length configs ->
  List.length (trace configs outs) = List.length configs.
Proof.
  intros L; unfold trace; rewrite length_map, length_combine; lia.
Qed.

Lemma forallb_false {A} (f : A -> bool) (l : list A) :
  forallb f l = false -> exists x, In x l /\ f x = false.
Proof.
  induction l as [|x l IH]; simpl; [discriminate|].
  destruct (f x) eqn:F; simpl.
  - intros Hl; destruct (IH Hl) as [y [Hy Fy]]; exists y; auto.
  - intros _; exists x; auto.
Qed.

(** What holds of the value holds of the outcome of the handler, unless
    its [print] raised. *)
Lemma handled_unless `{Interpreter} {A} (P : A -> Prop) (prefix : string)
    (caught : option Exception) (v : A) :
  P v -> unless_print_raised P (handled prefix caught v).
Proof.
  intros Pv; destruct caught as [e|]; simpl; [|exact Pv].
  destruct (writable prefix e) eqn:W; simpl; [exact Pv|].
  split; [reflexivity|].
  destruct (forallb_false _ _ W) as [c [_ Hc]]; now exists c.
Qed.

Section Soundness.
Context `{Interpreter} `{OcrEngine}.

Lemma single_call_fail_soft config prefix pil_img w :
  fail_soft 1 (single_call config prefix pil_img) w.
Proof.
  destruct (array_of pil_img) as [e|a] eqn:A.
  - destruct (single_call_unconverted config prefix pil_img w _ A)
      as [w' [E [Hc _]]].
    do 2 eexists; exists []; split; [exact E|]; split; [exact Hc|].
    split; [simpl; lia|].
    apply handled_unless; split; [reflexivity|discriminate].
  - destruct (image_to_string a config "eng" (engine w)) as [o s] eqn:C.
    destruct (single_call_run config prefix pil_img w _ _ _ A C)
      as [w' [E [Hc _]]].
    do 3 eexists; split; [exact E|]; split; [exact Hc|].
    split; [simpl; lia|].
    apply handled_unless.
    destruct o as [e|raw]; simpl; split; auto.
    + apply strip_trimmed.
    + discriminate.
Qed.

Lemma single_ladder_fail_soft configs prefix pil_img w :
  fail_soft (List.length configs) (single_ladder configs prefix pil_img) w.
Proof.
  destruct (array_of pil_img) as [e|a] eqn:A.
  - destruct (single_ladder_unconverted configs prefix pil_img w _ A)
      as [w' [E [Hc _]]].
    do 2 eexists; exists []; split; [exact E|]; split; [exact Hc|].
    split; [simpl; lia|].
    apply handled_unless; split; [reflexivity|discriminate].
  - destruct (engine_run a configs (engine w)) as [outs s] eqn:R.
    destruct (scan truthy outs) as [r n] eqn:S.
    destruct (single_ladder_run configs prefix pil_img w _ _ _ _ _ A R S)
      as [w' [E [Hc _]]].
    pose proof (engine_run_length _ _ _ _ _ R) as L.
    do 3 eexists; split; [exact E|]; split; [exact Hc|].
    split.
    + rewrite length_firstn, trace_length by exact L.
      apply Nat.le_min_r.
    + apply handled_unless; split; [eapply scan_trimmed; eauto|].
      intros Hr.
      apply (scan_raised truthy configs outs _ _ (eq_sym L) S) in Hr.
      destruct Hr as [e ->]; reflexivity.
Qed.

Lemma turn_outcome_facts outs1 outs2 :
  List.length outs1 = 3 -> List.length outs2 = 3 ->
  trimmed (fst (turn_outcome outs1 outs2)) = true /\
  List.length (snd (turn_outcome outs1 outs2)) <= 6 /\
  (existsb call_raised (snd (turn_outcome outs1 outs2)) = true ->
   fst (turn_outcome outs1 outs2) = py "").
Proof.
  intros L1 L2; unfold turn_outcome.
  destruct (scan qualifies outs1) as [r1 n1] eqn:S1.
  assert (T1 : List.length (trace turn_configs outs1) = 3)
    by (rewrite trace_length; [reflexivity|exact L1]).
  assert (T2 : List.length (trace turn_configs outs2) = 3)
    by (rewrite trace_length; [reflexivity|exact L2]).
  assert (R1 : existsb call_raised (firstn n1 (trace turn_configs outs1)) = true
               <-> exists e, r1 = inl e)
    by (apply (scan_raised qualifies turn_configs outs1 _ _ (eq_sym L1) S1)).
  assert (B1 : List.length (firstn n1 (trace turn_configs outs1)) <= 6)
    by (rewrite length_firstn; lia).
  destruct r1 as [e|[t|]]; simpl.
  - repeat split; auto.
  - split; [apply (scan_trimmed _ _ _ _ S1)|]; split; [exact B1|].
    intros Hr; apply R1 in Hr; destruct Hr as [e ?]; discriminate.
  - destruct (scan truthy outs2) as [r2 n2] eqn:S2; simpl.
    split; [apply (scan_trimmed _ _ _ _ S2)|]; split.
    + rewrite length_app, length_firstn; lia.
    + rewrite existsb_app, orb_true_iff; intros [Hr|Hr].
      * destruct (scan_none _ _ _ S1) as [N1 _].
        rewrite <- (firstn_all (trace turn_configs outs1)), T1, <- L1, <- N1
          in Hr.
        apply R1 in Hr; destruct Hr as [e ?]; discriminate.
      * apply (scan_raised truthy turn_configs outs2 _ _ (eq_sym L2) S2) in Hr.
        destruct Hr as [e ->]; reflexivity.
Qed.

Lemma extract_turn_number_fail_soft pil_img w :
  fail_soft 6 (extract_turn_number pil_img) w.
Proof.
  destruct (array_of pil_img) as [e|a] eqn:A.
  - destruct (extract_turn_number_unconverted pil_img w _ A)
      as [w' [E [Hc _]]].
    do 2 eexists; exists []; split; [exact E|]; split; [exact Hc|].
    split; [simpl; lia|].
    apply handled_unless; split; [reflexivity|discriminate].
  - destruct (engine_run a turn_configs (engine w)) as [outs1 s1] eqn:R1.
    destruct (engine_run a turn_configs s1) as [outs2 s2] eqn:R2.
    destruct (extract_turn_number_run pil_img w _ _ _ _ _ A R1 R2)
      as [w' [E [Hc _]]].
    destruct (turn_outcome_facts outs1 outs2) as [T [B S]].
    + apply (engine_run_length _ _ _ _ _ R1).
    + apply (engine_run_length _ _ _ _ _ R2).
    + do 3 eexists; split; [exact E|]; split; [exact Hc|].
      split; [exact B|]; apply handled_unless; auto.
Qed.

End Soundness.

(** ** The token loop and the average *)

Lemma token_loop_grows d items :
  forall ps cs ps' cs',
    token_loop d items ps cs = inr (ps', cs') ->
    exists ps1 cs1,
      ps' = ps ++ ps1 /\ cs' = cs ++ cs1 /\
      List.length ps1 = List.length cs1 /\
      (forall c, In c cs1 -> exists col, column_conf d = Some col /\ In c col).
Proof.
  induction items as [|[i text] items IH]; simpl; intros ps cs ps' cs' E.
  - injection E as <- <-; exists [], []; rewrite !app_nil_r.
    repeat split; intros c [].
  - destruct (truthy (strip text)).
    + unfold getitem_conf in E.
      destruct (column_conf d) as [col|] eqn:Col; simpl in E; [|discriminate].
      unfold list_getitem in E.
      destruct (nth_error col i) as [c|] eqn:N; simpl in E; [|discriminate].
      destruct (IH _ _ _ _ E) as [ps1 [cs1 [-> [-> [L Hin]]]]].
      exists (text :: ps1), (c :: cs1); rewrite <- !app_assoc; simpl.
      repeat split; [now rewrite L|].
      intros x [<-|Hx]; [|auto].
      exists col; split; [reflexivity|eapply nth_error_In; eauto].
    + eauto.
Qed.

(** On a well-formed answer, where the two columns list the texts and the
    confidences of the same tokens, the loop keeps the tokens whose
    trimmed text is not empty, in order. *)
Lemma token_loop_tokens toks :
  forall pre suf ps cs,
    toks = pre ++ suf ->
    token_loop (tokens toks)
      (combine (seq (List.length pre) (List.length (map fst suf))) (map fst suf))
      ps cs
    = inr (ps ++ map fst (filter kept suf), cs ++ map snd (filter kept suf)).
Proof.
  intros pre suf; revert pre.
  induction suf as [|[text c] suf IH]; intros pre ps cs E; simpl.
  - now rewrite !app_nil_r.
  - change (kept (text, c)) with (truthy (strip text)).
    assert (E' : toks = (pre ++ [(text, c)]) ++ suf)
      by (rewrite <- app_assoc; exact E).
    specialize (IH (pre ++ [(text, c)])).
    rewrite length_app, Nat.add_1_r in IH.
    destruct (truthy (strip text)).
    + unfold getitem_conf, tokens at 1; simpl.
      unfold list_getitem.
      replace (nth_error (map snd toks) (List.length pre)) with (Some c).
      * simpl; rewrite (IH _ _ E'), <- !app_assoc; reflexivity.
      * rewrite E, map_app, nth_error_app2 by (rewrite length_map; lia).
        rewrite length_map, Nat.sub_diag; reflexivity.
    + apply IH; exact E'.
Qed.

Lemma fold_add_bounds (xs : list Z) :
  (forall c, In c xs -> 0 <= c <= 100)%Z ->
  forall acc : Z,
    (acc <= fold_left Z.add xs acc <= acc + 100 * len xs)%Z.
Proof.
  unfold len; induction xs as [|x xs IH]; intros Hx acc; simpl fold_left.
  - simpl; lia.
  - assert (0 <= x <= 100)%Z by (apply Hx; now left).
    specialize (IH (fun c Hc => Hx c (or_intror Hc)) (acc + x)%Z).
    simpl List.length; lia.
Qed.

Lemma sum_bounds (xs : list Z) :
  (forall c, In c xs -> 0 <= c <= 100)%Z ->
  (0 <= sum xs <= 100 * len xs)%Z.
Proof. intros Hx; apply (fold_add_bounds xs Hx 0%Z). Qed.

Section AverageFacts.
Context `{Interpreter}.

Lemma rnd_proper (L : RoundingLaws) (p q : Q) :
  (p == q)%Q -> (rnd p == rnd q)%Q.
Proof.
  intros E; apply Qle_antisym; apply (rnd_monotone L);
    rewrite E; apply Qle_refl.
Qed.

Lemma rnd_small (L : RoundingLaws) (z : Z) :
  (0 <= z <= 100)%Z -> (rnd (inject_Z z) == inject_Z z)%Q.
Proof.
  intros Hz; apply (rnd_integer L).
  assert (100 <= 2 ^ 53)%Z by (vm_compute; discriminate).
  lia.
Qed.

Lemma average_bounds (L : RoundingLaws) (a n : Z) :
  (0 < n)%Z -> (0 <= a <= 100 * n)%Z ->
  (0 <= rnd (rnd (inject_Z a / inject_Z n) / 100) <= 1)%Q.
Proof.
  intros Hn Ha.
  assert (Qn : (0 < inject_Z n)%Q) by (unfold Qlt; cbn -[Z.mul]; lia).
  assert (M : (0 <= inject_Z a / inject_Z n <= 100)%Q).
  { split.
    - apply Qle_shift_div_l; [exact Qn|].
      rewrite Qmult_0_l; unfold Qle; cbn -[Z.mul]; lia.
    - apply Qle_shift_div_r; [exact Qn|].
      unfold Qle; cbn -[Z.mul]; lia. }
  assert (R : (0 <= rnd (inject_Z a / inject_Z n) <= 100)%Q).
  { split.
    - rewrite <- (rnd_small L 0) by lia.
      apply (rnd_monotone L), M.
    - rewrite <- (rnd_small L 100) by lia.
      apply (rnd_monotone L), M. }
  assert (D : (0 <= rnd (inject_Z a / inject_Z n) / 100 <= 1)%Q).
  { split.
    - apply Qle_shift_div_l; [reflexivity|].
      rewrite Qmult_0_l; apply R.
    - apply Qle_shift_div_r; [reflexivity|].
      rewrite Qmult_1_l; apply R. }
  split.
  - rewrite <- (rnd_small L 0) by lia.
    apply (rnd_monotone L), D.
  - rewrite <- (rnd_small L 1) by lia.
    apply (rnd_monotone L), D.
Qed.

Lemma int_truediv_defined (a n : Z) :
  (0 < n)%Z -> int_truediv a n = inr (rnd (inject_Z a / inject_Z n)).
Proof.
  intros Hn; unfold int_truediv.
  destruct (Z.eqb_spec n 0); [lia|reflexivity].
Qed.

(** Lines 160-165, once the loop has ended with equally long lists. *)
Lemma text_and_confidence_value d texts parts confs :
  getitem_text d = inr texts ->
  token_loop d (enumerate texts) [] [] = inr (parts, confs) ->
  text_and_confidence d
  = inr (match parts with
         | [] => (py "", 0%Q)
         | _ :: _ => (strip (join (py " ") parts), average confs)
         end).
Proof.
  intros T E; unfold text_and_confidence; rewrite T; simpl; rewrite E; simpl.
  destruct (token_loop_grows _ _ _ _ _ _ E) as [ps1 [cs1 [-> [-> [L _]]]]].
  simpl in *; destruct ps1 as [|p ps1]; [reflexivity|].
  rewrite int_truediv_defined; [reflexivity|].
  unfold len; destruct cs1; simpl in *; [discriminate|lia].
Qed.

Lemma text_and_confidence_trimmed d t c :
  text_and_confidence d = inr (t, c) -> trimmed t = true.
Proof.
  unfold text_and_confidence.
  destruct (getitem_text d) as [e|texts]; simpl; [discriminate|].
  destruct (token_loop d (enumerate texts) [] []) as [e|[parts confs]];
    simpl; [discriminate|].
  destruct parts as [|p parts].
  - intros E; injection E as <- _; reflexivity.
  - destruct (int_truediv (sum confs) (len confs)); simpl; [discriminate|].
    intros E; injection E as <- _; apply strip_trimmed.
Qed.

End AverageFacts.

Section ConfidenceRunFacts.
Context `{Interpreter} `{OcrEngine}.

Lemma with_confidence_unconverted pil_img w e :
  array_of pil_img = inl e ->
  ends (extract_failure_text_with_confidence pil_img) w
    (handled confidence_prefix (Some e) (py "", 0%Q)) []
    (printed_for confidence_prefix (Some e)).
Proof.
  intros A; unfold ends, extract_failure_text_with_confidence.
  match goal with |- context [try_except ?body _] =>
    destruct (try_except_ends body confidence_prefix (py "", 0%Q) w w (inl e))
      as [w' [E [Hc Ho]]];
      [unfold bind, to_ndarray, lift; now rewrite A|reflexivity|]
  end.
  exists w'; rewrite app_nil_r; auto.
Qed.

(** The whole of a call whose image converts: one invocation, the value
    read off its answer, and the handler entered when the invocation or
    the computation on its answer raised. *)
Lemma with_confidence_run pil_img w a o s :
  array_of pil_img = inr a ->
  image_to_data a confidence_config "eng" (engine w) = (o, s) ->
  ends (extract_failure_text_with_confidence pil_img) w
    (handled confidence_prefix (confidence_cause o) (confidence_value o))
    [DataCall confidence_config "eng" o]
    (printed_for confidence_prefix (confidence_cause o)).
Proof.
  intros A C; unfold ends, extract_failure_text_with_confidence.
  match goal with |- context [try_except ?body _] =>
    destruct (try_except_ends body confidence_prefix (py "", 0%Q) w
                {| engine := s;
                   calls := calls w ++ [DataCall confidence_config "eng" o];
                   stdout := stdout w |}
                (match o with
                 | inr d => text_and_confidence d
                 | inl e => inl e
                 end))
      as [w' [E [Hc Ho]]];
      [run_monad; rewrite A, C; now destruct o|reflexivity|]
  end.
  exists w'; unfold confidence_cause, confidence_value.
  destruct o as [e|d]; [auto|].
  destruct (text_and_confidence d) as [e|v]; auto.
Qed.

Lemma with_confidence_fail_soft pil_img w :
  exists r w' new,
    extract_failure_text_with_confidence pil_img w = (r, w') /\
    extends w w' new /\
    List.length new <= 1 /\
    unless_print_raised
      (fun v => trimmed (fst v) = true /\
                (existsb call_raised new = true -> v = (py "", 0%Q))) r.
Proof.
  destruct (array_of pil_img) as [e|a] eqn:A.
  - destruct (with_confidence_unconverted pil_img w e A) as [w' [E [Hc _]]].
    do 2 eexists; exists []; split; [exact E|]; split; [exact Hc|].
    split; [simpl; lia|].
    apply handled_unless; split; [reflexivity|discriminate].
  - destruct (image_to_data a confidence_config "eng" (engine w))
      as [o s] eqn:C.
    destruct (with_confidence_run pil_img w a o s A C) as [w' [E [Hc _]]].
    do 3 eexists; split; [exact E|]; split; [exact Hc|].
    split; [simpl; lia|].
    apply handled_unless.
    destruct o as [e|d]; simpl; [split; auto|].
    split; [|discriminate].
    destruct (text_and_confidence d) as [e|[t c]] eqn:T; [reflexivity|].
    apply (text_and_confidence_trimmed _ _ _ T).
Qed.

End ConfidenceRunFacts.

(** ** The stopping policies *)

Lemma scan_first accept outs k raw :
  first_accepted accept outs k raw ->
  scan accept outs = (inr (Some (strip raw)), S k).
Proof.
  revert outs; induction k as [|k IH]; intros outs [N [A B]].
  - destruct outs as [|o outs]; [discriminate|].
    simpl in N; injection N as ->; simpl; now rewrite A.
  - destruct (B 0 (Nat.lt_0_succ k)) as [raw0 [N0 A0]].
    destruct outs as [|o outs]; [discriminate|].
    simpl in N0; injection N0 as ->; simpl; rewrite A0.
    rewrite (IH outs); [reflexivity|].
    split; [exact N|]; split; [exact A|].
    intros j Hj; apply (B (S j)); lia.
Qed.

Lemma scan_all_rejected accept outs :
  all_rejected accept outs ->
  scan accept outs = (inr None, List.length outs).
Proof.
  induction outs as [|o outs IH]; intros R; [reflexivity|].
  destruct (R o (or_introl eq_refl)) as [raw [-> A]].
  simpl; rewrite A, IH; [reflexivity|].
  intros o' Ho'; apply R; now right.
Qed.

Lemma trace_whole configs outs :
  List.length outs = List.length configs ->
  firstn (List.length outs) (trace configs outs) = trace configs outs.
Proof.
  intros L; apply firstn_all2; rewrite trace_length by exact L; lia.
Qed.

Lemma lstrip_keeps (s : pystr) (c : pychar) :
  In c s -> isspace_char c = false -> In c (lstrip s).
Proof.
  induction s as [|x s IH]; simpl; [tauto|].
  intros [->|Hc] Hs.
  - rewrite Hs; now left.
  - destruct (isspace_char x); [auto|now right].
Qed.

Lemma strip_keeps (s : pystr) (c : pychar) :
  In c s -> isspace_char c = false -> In c (strip s).
Proof.
  intros Hc Hs; unfold strip, rstrip.
  apply -> in_rev; apply lstrip_keeps; [|exact Hs].
  apply -> in_rev; apply lstrip_keeps; assumption.
Qed.

Lemma letter_facts `{Interpreter} (c : pychar) :
  is_letter c = true ->
  isspace_char c = false /\ isdigit_char uni_digit c = false.
Proof.
  unfold is_letter, isspace_char, isdigit_char, between.
  rewrite orb_true_iff, !andb_true_iff, !N.leb_le; intros Hc.
  assert (Hr : (65 <= c <= 122)%N) by lia.
  destruct Hr as [Hlo Hhi].
  replace (c <? 128)%N with true by (symmetry; apply N.ltb_lt; lia).
  replace (9 <=? c)%N with true by (symmetry; apply N.leb_le; lia).
  replace (c <=? 13)%N with false by (symmetry; apply N.leb_gt; lia).
  replace (28 <=? c)%N with true by (symmetry; apply N.leb_le; lia).
  replace (c <=? 32)%N with false by (symmetry; apply N.leb_gt; lia).
  replace (c <=? 57)%N with false by (symmetry; apply N.leb_gt; lia).
  replace (c <=? 8202)%N with true by (symmetry; apply N.leb_le; lia).
  replace (8192 <=? c)%N with false by (symmetry; apply N.leb_gt; lia).
  rewrite !andb_false_r; simpl.
  repeat match goal with
  | |- context [(c =? ?k)%N] =>
      replace (c =? k)%N with false by (symmetry; apply N.eqb_neq; lia)
  end.
  split; reflexivity.
Qed.

Lemma letter_disqualifies `{Interpreter} (raw : pystr) :
  existsb is_letter raw = true -> qualifies (strip raw) = false.
Proof.
  intros E; apply existsb_exists in E; destruct E as [c [Hc Hl]].
  destruct (letter_facts c Hl) as [Hs Hd].
  pose proof (strip_keeps raw c Hc Hs) as Hin.
  unfold qualifies, isdigit.
  destruct (forallb (isdigit_char uni_digit) (strip raw)) eqn:F.
  - rewrite forallb_forall in F; rewrite (F c Hin) in Hd; discriminate.
  - now rewrite !andb_false_r.
Qed.

(** ** extract_turn_number: the two passes *)

Section TurnOutcome.
Context `{Interpreter}.

Lemma turn_outcome_first outs1 outs2 k raw :
  first_accepted qualifies outs1 k raw ->
  turn_outcome outs1 outs2
  = (strip raw, firstn (S k) (trace turn_configs outs1)).
Proof.
  intros F; unfold turn_outcome; now rewrite (scan_first _ _ _ _ F).
Qed.

Lemma turn_outcome_second outs1 outs2 k raw :
  all_rejected qualifies outs1 ->
  first_accepted truthy outs2 k raw ->
  turn_outcome outs1 outs2
  = (strip raw,
     trace turn_configs outs1 ++ firstn (S k) (trace turn_configs outs2)).
Proof.
  intros R F; unfold turn_outcome.
  now rewrite (scan_all_rejected _ _ R), (scan_first _ _ _ _ F).
Qed.

Lemma turn_outcome_nothing outs1 outs2 :
  List.length outs2 = 3 ->
  all_rejected qualifies outs1 ->
  all_rejected truthy outs2 ->
  turn_outcome outs1 outs2
  = (py "", trace turn_configs outs1 ++ trace turn_configs outs2).
Proof.
  intros L R1 R2; unfold turn_outcome.
  rewrite (scan_all_rejected _ _ R1), (scan_all_rejected _ _ R2).
  now rewrite trace_whole by exact L.
Qed.

Lemma turn_cause_first outs1 outs2 k raw :
  first_accepted qualifies outs1 k raw -> turn_cause outs1 outs2 = None.
Proof.
  intros F; unfold turn_cause; now rewrite (scan_first _ _ _ _ F).
Qed.

Lemma turn_cause_second outs1 outs2 k raw :
  all_rejected qualifies outs1 ->
  first_accepted truthy outs2 k raw ->
  turn_cause outs1 outs2 = None.
Proof.
  intros R F; unfold turn_cause.
  now rewrite (scan_all_rejected _ _ R), (scan_first _ _ _ _ F).
Qed.

Lemma turn_cause_nothing outs1 outs2 :
  all_rejected qualifies outs1 ->
  all_rejected truthy outs2 ->
  turn_cause outs1 outs2 = None.
Proof.
  intros R1 R2; unfold turn_cause.
  now rewrite (scan_all_rejected _ _ R1), (scan_all_rejected _ _ R2).
Qed.

End TurnOutcome.

(** C1.  [extract_turn_number] invokes its three digit-only profiles in the
    order single word, single line, uniform block.  The first answer whose
    trimmed text is non-empty and all digits is returned at once.  When no
    answer of the first pass qualifies, the same three profiles are invoked
    again in the same order and the first non-empty trimmed answer is
    returned whatever its characters; when also these are all empty the
    empty string is returned.  In particular, when profile 1 answers a
    text with a letter and profile 2 an all-digit text, the first pass
    returns the text of profile 2.  [outs1] and [outs2] are the answers
    the engine gives to the three profiles on a first and on a second
    round; each case also says which invocations were made. *)
Theorem extract_turn_number_policy `{Interpreter} `{OcrEngine}
    (pil_img : Image) (a : NdArray) (w : World)
    (outs1 outs2 : list (result pystr)) (s1 s2 : EngineState) :
  array_of pil_img = inr a ->
  engine_run a turn_configs (engine w) = (outs1, s1) ->
  engine_run a turn_configs s1 = (outs2, s2) ->
  map mode_of turn_configs
  = [Some SingleWord; Some SingleLine; Some UniformBlock] /\
  map whitelist_of turn_configs
  = [Some digits_whitelist; Some digits_whitelist; Some digits_whitelist] /\
  (forall k raw,
     first_accepted qualifies outs1 k raw ->
     returns (extract_turn_number pil_img) w (strip raw)
       (firstn (S k) (trace turn_configs outs1))) /\
  (all_rejected qualifies outs1 ->
   forall k raw,
     first_accepted truthy outs2 k raw ->
     returns (extract_turn_number pil_img) w (strip raw)
       (trace turn_configs outs1 ++ firstn (S k) (trace turn_configs outs2))) /\
  (all_rejected qualifies outs1 ->
   all_rejected truthy outs2 ->
   returns (extract_turn_number pil_img) w (py "")
     (trace turn_configs outs1 ++ trace turn_configs outs2)) /\
  (forall o1 o2 rest,
     outs1 = inr o1 :: inr o2 :: rest ->
     existsb is_letter o1 = true ->
     isdigit uni_digit (strip o2) = true ->
     returns (extract_turn_number pil_img) w (strip o2)
       (firstn 2 (trace turn_configs outs1))).
Proof.
  intros A R1 R2.
  destruct (extract_turn_number_run pil_img w a outs1 s1 outs2 s2 A R1 R2)
    as [w' [E [Hc _]]].
  split; [reflexivity|]; split; [reflexivity|].
  assert (First : forall k raw,
             first_accepted qualifies outs1 k raw ->
             returns (extract_turn_number pil_img) w (strip raw)
               (firstn (S k) (trace turn_configs outs1))).
  { intros k raw F; exists w'.
    rewrite (turn_cause_first outs1 outs2 k raw F) in E.
    now rewrite (turn_outcome_first outs1 outs2 k raw F) in E, Hc. }
  split; [exact First|]; split; [|split].
  - intros R k raw F; exists w'.
    rewrite (turn_cause_second outs1 outs2 k raw R F) in E.
    now rewrite (turn_outcome_second outs1 outs2 k raw R F) in E, Hc.
  - intros Rj1 Rj2; exists w'.
    pose proof (engine_run_length _ _ _ _ _ R2) as L2.
    rewrite (turn_cause_nothing outs1 outs2 Rj1 Rj2) in E.
    now rewrite (turn_outcome_nothing outs1 outs2 L2 Rj1 Rj2) in E, Hc.
  - intros o1 o2 rest -> L D.
    apply (First 1 o2); split; [reflexivity|]; split.
    + unfold qualifies; rewrite D.
      unfold isdigit in D; apply andb_true_iff in D; now rewrite (proj1 D).
    + intros j Hj; exists o1; split.
      * now replace j with 0 by lia.
      * now apply letter_disqualifies.
Qed.

(** Profile 1 answers "12O", profile 2 answers "45": "45" is returned after
    two invocations. *)
Lemma extract_turn_number_policy_witness :
  let w := playing [inr (py "12O"); inr (py "45")] in
  let outs1 : list (result pystr) :=
    [inr (py "12O"); inr (py "45"); inr (py "")] in
  let outs2 : list (result pystr) :=
    [inr (py ""); inr (py ""); inr (py "")] in
  let done := {| string_answers := []; data_answers := [] |} in
  (array_of test_image = inr tt /\
   @engine_run scripted_engine tt turn_configs (engine w) = (outs1, done) /\
   @engine_run scripted_engine tt turn_configs done = (outs2, done)) /\
  returns (@extract_turn_number exact_interpreter scripted_engine test_image)
    w (py "45")
    [StringCall "--oem 3 --psm 8 -c tessedit_char_whitelist=0123456789" "eng"
       (inr (py "12O"));
     StringCall "--oem 3 --psm 7 -c tessedit_char_whitelist=0123456789" "eng"
       (inr (py "45"))].
Proof.
  intros w outs1 outs2 done.
  split; [repeat split|].
  refine (proj2 (proj2 (proj2 (proj2 (proj2
    (@extract_turn_number_policy exact_interpreter scripted_engine
       test_image tt w outs1 outs2 done done eq_refl eq_refl eq_refl)))))
    (py "12O") (py "45") [inr (py "")] eq_refl eq_refl eq_refl).
Defined.

(** ** extract_failure_text *)

(** C7.  [extract_failure_text] has exactly four profiles, all with the
    whitelist of letters, digits, [%().] and the space, in the order
    uniform block, single line, single word, raw line.  It returns the
    trimmed text of the first answer whose trimmed text is non-empty,
    having invoked the profiles up to that one in order, and the empty
    string when all four answers are empty. *)
Theorem extract_failure_text_policy `{Interpreter} `{OcrEngine}
    (pil_img : Image) (a : NdArray) (w : World)
    (outs : list (result pystr)) (s : EngineState) :
  array_of pil_img = inr a ->
  engine_run a failure_configs (engine w) = (outs, s) ->
  List.length failure_configs = 4 /\
  map mode_of failure_configs
  = [Some UniformBlock; Some SingleLine; Some SingleWord; Some RawLine] /\
  map whitelist_of failure_configs = repeat (Some failure_whitelist) 4 /\
  (forall k raw,
     first_accepted truthy outs k raw ->
     returns (extract_failure_text pil_img) w (strip raw)
       (firstn (S k) (trace failure_configs outs))) /\
  (all_rejected truthy outs ->
   returns (extract_failure_text pil_img) w (py "")
     (trace failure_configs outs)).
Proof.
  intros A R.
  split; [reflexivity|]; split; [reflexivity|]; split; [reflexivity|].
  rewrite extract_failure_text_shape.
  pose proof (engine_run_length _ _ _ _ _ R) as L.
  split.
  - intros k raw F.
    destruct (single_ladder_run failure_configs
                "[WARNING] Failure text extraction failed: " pil_img w a outs s
                _ _ A R (scan_first _ _ _ _ F)) as [w' [E [Hc _]]].
    exists w'; split; [exact E|exact Hc].
  - intros Rj.
    destruct (single_ladder_run failure_configs
                "[WARNING] Failure text extraction failed: " pil_img w a outs s
                _ _ A R (scan_all_rejected _ _ Rj)) as [w' [E [Hc _]]].
    exists w'; split; [exact E|].
    now rewrite trace_whole in Hc by exact L.
Qed.

(** The uniform-block profile answers nothing, the single-line profile
    answers " 30% ": "30%" is returned after two invocations. *)
Lemma extract_failure_text_policy_witness :
  let w := playing [inr (py ""); inr (py " 30% ")] in
  let outs : list (result pystr) :=
    [inr (py ""); inr (py " 30% "); inr (py ""); inr (py "")] in
  let done := {| string_answers := []; data_answers := [] |} in
  (array_of test_image = inr tt /\
   @engine_run scripted_engine tt failure_configs (engine w) = (outs, done)) /\
  returns (@extract_failure_text exact_interpreter scripted_engine
             test_image) w (py "30%")
    (firstn 2 (trace failure_configs outs)).
Proof.
  intros w outs done.
  split; [repeat split|].
  refine (proj1 (proj2 (proj2 (proj2
    (@extract_failure_text_policy exact_interpreter scripted_engine
       test_image tt w outs done eq_refl eq_refl))))
    1 (py " 30% ") _).
  split; [reflexivity|]; split; [reflexivity|].
  intros j Hj; exists (py ""); split; [|reflexivity].
  destruct j as [|j]; [reflexivity|].
  exfalso; apply (Nat.nlt_0_r j), Nat.succ_lt_mono, Hj.
Defined.

(** ** Rounding on binary64 obeys the rounding laws *)

Section Binary64Facts.
Local Open Scope Q_scope.

Lemma round_half_even_near (x : Q) :
  x - (1 # 2) <= inject_Z (round_half_even x) <= x + (1 # 2).
Proof.
  unfold round_half_even.
  pose proof (Qfloor_le x) as Lo; pose proof (Qlt_floor x) as Hi.
  rewrite inject_Z_plus in Hi.
  destruct (Qcompare (x - inject_Z (Qfloor x)) (1 # 2)) eqn:C.
  - apply Qeq_alt in C.
    destruct (Z.even (Qfloor x)); rewrite ?inject_Z_plus;
      change (inject_Z 1) with 1 in *; split; lra.
  - apply Qlt_alt in C; split; lra.
  - apply Qgt_alt in C; rewrite inject_Z_plus;
      change (inject_Z 1) with 1 in *; split; lra.
Qed.

Lemma round_half_even_tie (x : Q) :
  inject_Z (round_half_even x) == x + (1 # 2) \/
  inject_Z (round_half_even x) == x - (1 # 2) ->
  Z.even (round_half_even x) = true.
Proof.
  unfold round_half_even.
  pose proof (Qfloor_le x) as Lo; pose proof (Qlt_floor x) as Hi.
  rewrite inject_Z_plus in Hi.
  destruct (Qcompare (x - inject_Z (Qfloor x)) (1 # 2)) eqn:C.
  - intros _; destruct (Z.even (Qfloor x)) eqn:E; [exact E|].
    rewrite Z.even_add, E; reflexivity.
  - apply Qlt_alt in C; change (inject_Z 1) with 1 in *; intros [T|T]; lra.
  - apply Qgt_alt in C; rewrite inject_Z_plus;
      change (inject_Z 1) with 1 in *; intros [T|T]; lra.
Qed.

Lemma round_half_even_below (x : Q) (k : Z) :
  x <= inject_Z k -> (round_half_even x <= k)%Z.
Proof.
  intros Hx; destruct (Z_le_gt_dec (round_half_even x) k) as [L|G]; [exact L|].
  exfalso.
  assert (K : (k + 1 <= round_half_even x)%Z) by lia.
  rewrite Zle_Qle in K; rewrite inject_Z_plus in K.
  change (inject_Z 1) with 1 in K.
  pose proof (round_half_even_near x) as N; lra.
Qed.

Lemma round_half_even_above (x : Q) (k : Z) :
  inject_Z k <= x -> (k <= round_half_even x)%Z.
Proof.
  intros Hx; destruct (Z_le_gt_dec k (round_half_even x)) as [L|G]; [exact L|].
  exfalso.
  assert (K : (round_half_even x + 1 <= k)%Z) by lia.
  rewrite Zle_Qle in K; rewrite inject_Z_plus in K.
  change (inject_Z 1) with 1 in K.
  pose proof (round_half_even_near x) as N; lra.
Qed.

Lemma round_half_even_monotone (x y : Q) :
  x <= y -> (round_half_even x <= round_half_even y)%Z.
Proof.
  intros Hxy.
  destruct (Z_le_gt_dec (round_half_even x) (round_half_even y)) as [L|G];
    [exact L|exfalso].
  assert (K : (round_half_even y + 1 <= round_half_even x)%Z) by lia.
  pose proof K as KQ; rewrite Zle_Qle in KQ; rewrite inject_Z_plus in KQ.
  change (inject_Z 1) with 1 in KQ.
  pose proof (round_half_even_near x) as Nx.
  pose proof (round_half_even_near y) as Ny.
  assert (Tx : Z.even (round_half_even x) = true)
    by (apply round_half_even_tie; left; lra).
  assert (Ty : Z.even (round_half_even y) = true)
    by (apply round_half_even_tie; right; lra).
  assert (E : round_half_even x = (round_half_even y + 1)%Z).
  { apply Z.le_antisymm; [|exact K].
    rewrite Zle_Qle, inject_Z_plus; change (inject_Z 1) with 1; lra. }
  rewrite E, Z.even_add, Ty in Tx; discriminate.
Qed.

Lemma pow2_pos (e : Z) : 0 < 2 ^ e.
Proof. apply Qpower_0_lt; reflexivity. Qed.

Lemma pow2_le (e e' : Z) : (e <= e')%Z -> 2 ^ e <= 2 ^ e'.
Proof. intros L; apply Qpower_le_compat_l; [exact L|discriminate]. Qed.

Lemma pow2_add (a b : Z) : 2 ^ (a + b) == 2 ^ a * 2 ^ b.
Proof. apply Qpower_plus; discriminate. Qed.

Lemma pow2_succ (a : Z) : 2 ^ (a + 1) == 2 * 2 ^ a.
Proof. rewrite pow2_add; change (2 ^ 1) with 2; ring. Qed.

Lemma pow2_Z (n : Z) : (0 <= n)%Z -> inject_Z (2 ^ n) == 2 ^ n.
Proof. intros Hn; apply (Zpower_Qpower 2 n Hn). Qed.

Lemma log2_bounds (n : Z) :
  (0 < n)%Z -> 2 ^ Z.log2 n <= inject_Z n < 2 * 2 ^ Z.log2 n.
Proof.
  intros Hn; destruct (Z.log2_spec n Hn) as [Lo Hi].
  pose proof (Z.log2_nonneg n) as Nn.
  rewrite <- pow2_succ, <- !pow2_Z by lia.
  split; [rewrite <- Zle_Qle; exact Lo|rewrite <- Zlt_Qlt].
  now rewrite <- Z.add_1_r in Hi.
Qed.

Lemma binade_spec (q : Q) :
  0 < q -> 2 ^ binade q <= q < 2 ^ (binade q + 1).
Proof.
  intros Hq; destruct q as [n d].
  assert (Hn : (0 < n)%Z) by (unfold Qlt in Hq; simpl in Hq; lia).
  unfold binade; simpl Qnum; simpl Qden.
  set (a := Z.log2 n); set (b := Z.log2 (Z.pos d)).
  destruct (log2_bounds n Hn) as [An nA]; fold a in An, nA.
  destruct (log2_bounds (Z.pos d) eq_refl) as [Bd dB]; fold b in Bd, dB.
  pose proof (pow2_pos a) as Pa; pose proof (pow2_pos b) as Pb.
  assert (E : 2 ^ (a - b) == 2 ^ a / 2 ^ b)
    by (apply Qpower_minus; discriminate).
  assert (Q' : n # d == inject_Z n / inject_Z (Z.pos d)) by apply Qmake_Qdiv.
  assert (Dpos : 0 < inject_Z (Z.pos d)) by reflexivity.
  assert (Up : n # d < 2 * 2 ^ (a - b)).
  { rewrite Q', E.
    apply Qlt_shift_div_r; [exact Dpos|].
    setoid_replace (2 * (2 ^ a / 2 ^ b) * inject_Z (Z.pos d))
      with ((2 * 2 ^ a) * (inject_Z (Z.pos d) / 2 ^ b)) by (field; lra).
    assert (1 <= inject_Z (Z.pos d) / 2 ^ b)
      by (apply Qle_shift_div_l; [exact Pb|lra]).
    nra. }
  assert (Lo : 2 ^ (a - b) < 2 * (n # d)).
  { rewrite Q', E.
    apply Qlt_shift_div_r; [exact Pb|].
    setoid_replace (2 * (inject_Z n / inject_Z (Z.pos d)) * 2 ^ b)
      with (inject_Z n * ((2 * 2 ^ b) / inject_Z (Z.pos d))) by (field; lra).
    assert (1 < (2 * 2 ^ b) / inject_Z (Z.pos d))
      by (apply Qlt_shift_div_l; [exact Dpos|lra]).
    nra. }
  destruct (Qle_bool (2 ^ (a - b)) (n # d)) eqn:T.
  - apply Qle_bool_iff in T; rewrite pow2_succ; split; assumption.
  - assert (T' : n # d < 2 ^ (a - b)).
    { apply Qnot_le_lt; intros C; apply Qle_bool_iff in C; congruence. }
    replace (a - b - 1 + 1)%Z with (a - b)%Z by lia.
    split; [|exact T'].
    assert (S : 2 ^ (a - b) == 2 * 2 ^ (a - b - 1)).
    { rewrite <- pow2_succ; replace (a - b - 1 + 1)%Z with (a - b)%Z by lia.
      reflexivity. }
    lra.
Qed.

Lemma binade_unique (q : Q) (e : Z) :
  2 ^ e <= q < 2 ^ (e + 1) -> binade q = e.
Proof.
  intros [Lo Hi].
  assert (Hq : 0 < q) by (pose proof (pow2_pos e); lra).
  destruct (binade_spec q Hq) as [Lo' Hi'].
  destruct (Z.lt_trichotomy (binade q) e) as [L|[E|G]]; [exfalso|exact E|exfalso].
  - pose proof (pow2_le (binade q + 1) e ltac:(lia)); lra.
  - pose proof (pow2_le (e + 1) (binade q) ltac:(lia)); lra.
Qed.

Lemma binade_monotone (p q : Q) :
  0 < p -> p <= q -> (binade p <= binade q)%Z.
Proof.
  intros Hp Hpq.
  destruct (binade_spec p Hp) as [Lp _].
  destruct (binade_spec q ltac:(lra)) as [_ Hq].
  destruct (Z_le_gt_dec (binade p) (binade q)) as [L|G]; [exact L|exfalso].
  pose proof (pow2_le (binade q + 1) (binade p) ltac:(lia)); lra.
Qed.

Lemma round_to_below (e : Z) (q : Q) (k : Z) :
  q <= inject_Z k * 2 ^ e -> round_to e q <= inject_Z k * 2 ^ e.
Proof.
  intros Hq; unfold round_to; pose proof (pow2_pos e) as P.
  apply Qmult_le_compat_r; [|lra].
  rewrite <- Zle_Qle; apply round_half_even_below.
  apply Qle_shift_div_r; assumption.
Qed.

Lemma round_to_above (e : Z) (q : Q) (k : Z) :
  inject_Z k * 2 ^ e <= q -> inject_Z k * 2 ^ e <= round_to e q.
Proof.
  intros Hq; unfold round_to; pose proof (pow2_pos e) as P.
  apply Qmult_le_compat_r; [|lra].
  rewrite <- Zle_Qle; apply round_half_even_above.
  apply Qle_shift_div_l; assumption.
Qed.

Lemma round_to_monotone (e : Z) (p q : Q) :
  p <= q -> round_to e p <= round_to e q.
Proof.
  intros Hpq; unfold round_to; pose proof (pow2_pos e) as P.
  apply Qmult_le_compat_r; [|lra].
  rewrite <- Zle_Qle; apply round_half_even_monotone.
  apply Qmult_le_compat_r; [exact Hpq|].
  apply Qinv_le_0_compat; lra.
Qed.

Lemma round_to_grid (e : Z) (q : Q) (k : Z) :
  q == inject_Z k * 2 ^ e -> round_to e q == q.
Proof.
  intros E; apply Qle_antisym.
  - rewrite E at 2; apply round_to_below; rewrite E; apply Qle_refl.
  - rewrite E at 1; apply round_to_above; rewrite E; apply Qle_refl.
Qed.

(** A power of two lies on every finer grid. *)
Lemma pow2_on_grid (b e : Z) :
  (e <= b)%Z -> 2 ^ b == inject_Z (2 ^ (b - e)) * 2 ^ e.
Proof.
  intros L; rewrite pow2_Z by lia.
  rewrite <- pow2_add; replace (b - e + e)%Z with b by lia; reflexivity.
Qed.

Lemma exp64_monotone (p q : Q) :
  0 < p -> p <= q -> (exp64 p <= exp64 q)%Z.
Proof.
  intros Hp Hpq; pose proof (binade_monotone p q Hp Hpq); unfold exp64; lia.
Qed.

Lemma round_positive_monotone (p q : Q) :
  0 < p -> p <= q -> round_to (exp64 p) p <= round_to (exp64 q) q.
Proof.
  intros Hp Hpq.
  pose proof (exp64_monotone p q Hp Hpq) as L.
  destruct (Z.eq_dec (exp64 p) (exp64 q)) as [E|N].
  - rewrite E; apply round_to_monotone; exact Hpq.
  - assert (Bq : (exp64 q = binade q - 52 /\ binade p < binade q)%Z)
      by (unfold exp64 in *; lia).
    destruct Bq as [Eq Lt].
    destruct (binade_spec p Hp) as [_ Up].
    destruct (binade_spec q ltac:(lra)) as [Lo _].
    pose proof (pow2_le (binade p + 1) (binade q) ltac:(lia)) as Step.
    apply Qle_trans with (2 ^ binade q).
    + rewrite (pow2_on_grid (binade q) (exp64 p)) by (unfold exp64 in *; lia).
      apply round_to_below.
      rewrite <- pow2_on_grid by (unfold exp64 in *; lia); lra.
    + rewrite (pow2_on_grid (binade q) (exp64 q)) by lia.
      apply round_to_above.
      rewrite <- pow2_on_grid by lia; exact Lo.
Qed.

Lemma round_positive_nonneg (q : Q) : 0 < q -> 0 <= round_to (exp64 q) q.
Proof.
  intros Hq.
  setoid_replace 0 with (inject_Z 0 * 2 ^ exp64 q) by ring.
  apply round_to_above.
  setoid_replace (inject_Z 0 * 2 ^ exp64 q) with 0 by ring; lra.
Qed.

Lemma Qcompare_zero (q : Q) :
  (Qcompare q 0 = Eq /\ q == 0) \/
  (Qcompare q 0 = Lt /\ q < 0) \/
  (Qcompare q 0 = Gt /\ 0 < q).
Proof.
  destruct (Qcompare q 0) eqn:C.
  - left; split; [reflexivity|apply Qeq_alt; exact C].
  - right; left; split; [reflexivity|apply Qlt_alt; exact C].
  - right; right; split; [reflexivity|apply Qgt_alt; exact C].
Qed.

Lemma rnd64_monotone (p q : Q) : p <= q -> rnd64 p <= rnd64 q.
Proof.
  intros Hpq; unfold rnd64.
  destruct (Qcompare_zero p) as [[-> Hp]|[[-> Hp]|[-> Hp]]];
    destruct (Qcompare_zero q) as [[-> Hq]|[[-> Hq]|[-> Hq]]];
    try (exfalso; lra).
  - apply Qle_refl.
  - apply round_positive_nonneg; exact Hq.
  - pose proof (round_positive_nonneg (- p) ltac:(lra)); lra.
  - pose proof (round_positive_monotone (- q) (- p) ltac:(lra) ltac:(lra)); lra.
  - pose proof (round_positive_nonneg (- p) ltac:(lra)).
    pose proof (round_positive_nonneg q Hq); lra.
  - apply round_positive_monotone; assumption.
Qed.

Lemma round_positive_integer (z : Z) :
  (0 < z <= 2 ^ 53)%Z ->
  round_to (exp64 (inject_Z z)) (inject_Z z) == inject_Z z.
Proof.
  intros [Pos Le].
  assert (B : binade (inject_Z z) = Z.log2 z).
  { apply binade_unique; rewrite pow2_succ; apply log2_bounds; exact Pos. }
  pose proof (Z.log2_nonneg z) as Nn.
  assert (E : exp64 (inject_Z z) = (Z.log2 z - 52)%Z)
    by (unfold exp64; rewrite B; lia).
  rewrite E.
  destruct (Z.eq_dec z (2 ^ 53)) as [->|Ne].
  - apply (round_to_grid _ _ (2 ^ 52)); reflexivity.
  - assert (L52 : (Z.log2 z <= 52)%Z).
    { assert (Z.log2 z < 53)%Z; [|lia].
      apply Z.log2_lt_pow2; [exact Pos|lia]. }
    apply (round_to_grid _ _ (z * 2 ^ (52 - Z.log2 z))).
    rewrite inject_Z_mult, pow2_Z by lia.
    rewrite <- Qmult_assoc, <- pow2_add.
    replace (52 - Z.log2 z + (Z.log2 z - 52))%Z with 0%Z by lia.
    change (2 ^ 0) with 1; ring.
Qed.

Lemma rnd64_integer (z : Z) :
  (Z.abs z <= 2 ^ 53)%Z -> rnd64 (inject_Z z) == inject_Z z.
Proof.
  intros Hz; unfold rnd64.
  destruct (Qcompare_zero (inject_Z z)) as [[-> C]|[[-> C]|[-> C]]].
  - rewrite C; reflexivity.
  - change 0 with (inject_Z 0) in C; rewrite <- Zlt_Qlt in C.
    change (- inject_Z z) with (inject_Z (- z)).
    rewrite round_positive_integer by lia.
    rewrite inject_Z_opp; ring.
  - change 0 with (inject_Z 0) in C; rewrite <- Zlt_Qlt in C.
    apply round_positive_integer; lia.
Qed.

End Binary64Facts.

Lemma binary64_rounding : @RoundingLaws latin1_interpreter.
Proof.
  split; simpl.
  - exact rnd64_monotone.
  - exact rnd64_integer.
Qed.

Lemma exact_rounding : @RoundingLaws exact_interpreter.
Proof.
  split; simpl.
  - intros p q Hpq; exact Hpq.
  - intros z _; reflexivity.
Qed.

(** ** extract_failure_text_with_confidence *)

Lemma text_and_confidence_tokens `{Interpreter} (toks : list (pystr * Z)) :
  text_and_confidence (tokens toks)
  = inr (match filter kept toks with
         | [] => (py "", 0%Q)
         | keep =>
             (strip (join (py " ") (map fst keep)), average (map snd keep))
         end).
Proof.
  rewrite (text_and_confidence_value (tokens toks) (map fst toks)
             (map fst (filter kept toks)) (map snd (filter kept toks))).
  - destruct (filter kept toks); reflexivity.
  - reflexivity.
  - apply (token_loop_tokens toks [] toks [] [] eq_refl).
Qed.

(** C2.  On an answer of the engine that lists the tokens [toks],
    [extract_failure_text_with_confidence] keeps the tokens whose trimmed
    text is non-empty; its text is their raw texts joined with one space
    and then trimmed, its confidence is the mean of their confidences
    divided by 100; with no such token it answers exactly [("", 0.0)].
    For the tokens [("12", 90), ("", 0), ("%", 80)] the text is "12 %" and
    the confidence is the float 0.85. *)
Theorem with_confidence_tokens `{Interpreter} `{OcrEngine}
    (pil_img : Image) (a : NdArray) (w : World)
    (toks : list (pystr * Z)) (s : EngineState) :
  array_of pil_img = inr a ->
  image_to_data a confidence_config "eng" (engine w)
  = (inr (tokens toks), s) ->
  returns (extract_failure_text_with_confidence pil_img) w
    (match filter kept toks with
     | [] => (py "", 0%Q)
     | keep => (strip (join (py " ") (map fst keep)), average (map snd keep))
     end)
    [DataCall confidence_config "eng" (inr (tokens toks))] /\
  (RoundingLaws ->
   toks = [(py "12", 90%Z); (py "", 0%Z); (py "%", 80%Z)] ->
   exists c,
     returns (extract_failure_text_with_confidence pil_img) w (py "12 %", c)
       [DataCall confidence_config "eng" (inr (tokens toks))] /\
     (c == rnd (85 # 100))%Q).
Proof.
  intros A C.
  destruct (with_confidence_run pil_img w a _ s A C) as [w' [E [Hc _]]].
  unfold confidence_value, confidence_cause in E.
  rewrite text_and_confidence_tokens in E; cbn [cause_of handled] in E.
  split; [exists w'; split; assumption|].
  intros L ->; simpl filter in E.
  eexists; split; [exists w'; split; [exact E|exact Hc]|].
  unfold average; simpl map.
  apply (rnd_proper L).
  assert (M : (inject_Z (sum [90; 80]%Z) / inject_Z (len [90; 80]%Z)
               == inject_Z 85)%Q) by reflexivity.
  rewrite (rnd_proper L _ _ M), (rnd_small L 85) by lia.
  reflexivity.
Qed.

(** The three tokens of the example on binary64: the text is "12 %" and
    the confidence is the float 0.85, which is 7656119366529843 / 2^53. *)
Lemma with_confidence_tokens_witness :
  let toks := [(py "12", 90%Z); (py "", 0%Z); (py "%", 80%Z)] in
  let w := playing_data [inr (tokens toks)] in
  let done := {| string_answers := []; data_answers := [] |} in
  (array_of test_image = inr tt /\
   @image_to_data scripted_engine tt confidence_config "eng" (engine w)
   = (inr (tokens toks), done)) /\
  exists c,
    returns (@extract_failure_text_with_confidence latin1_interpreter
               scripted_engine test_image) w (py "12 %", c)
      [DataCall confidence_config "eng" (inr (tokens toks))] /\
    (c == 7656119366529843 # 9007199254740992)%Q.
Proof.
  intros toks w done.
  split; [repeat split|].
  destruct (proj2 (@with_confidence_tokens latin1_interpreter scripted_engine
                     test_image tt w toks done eq_refl eq_refl)
              binary64_rounding eq_refl) as [c [R E]].
  exists c; split; [exact R|].
  rewrite E; vm_compute; reflexivity.
Defined.

Lemma text_and_confidence_bounds `{Interpreter} (L : RoundingLaws)
    (d : OcrData) (t : pystr) (c : Q) :
  (forall cs, column_conf d = Some cs ->
     forall x, In x cs -> (0 <= x <= 100)%Z) ->
  text_and_confidence d = inr (t, c) ->
  (0 <= c <= 1)%Q.
Proof.
  intros Hd E.
  destruct (getitem_text d) as [e|texts] eqn:T;
    [unfold text_and_confidence in E; rewrite T in E; discriminate|].
  destruct (token_loop d (enumerate texts) [] []) as [e|[parts confs]] eqn:K;
    [unfold text_and_confidence in E; rewrite T in E; simpl in E;
     rewrite K in E; discriminate|].
  rewrite (text_and_confidence_value d texts parts confs T K) in E.
  destruct (token_loop_grows _ _ _ _ _ _ K) as [ps1 [cs1 [-> [-> [Len Hin]]]]].
  simpl in *.
  destruct ps1 as [|p ps1].
  - injection E as _ <-; split; [apply Qle_refl|discriminate].
  - injection E as _ <-; unfold average.
    apply (average_bounds L).
    + unfold len; destruct cs1; simpl in *; [discriminate|lia].
    + apply sum_bounds; intros x Hx.
      destruct (Hin x Hx) as [col [Col Hc]]; eauto.
Qed.

(** C8.  When every confidence the engine lists is an integer between 0
    and 100, the confidence [extract_failure_text_with_confidence] answers
    lies between 0.0 and 1.0, both included.  On an answer of the engine
    that lists tokens the call answers a pair; on any other outcome the
    pair is the sentinel, unless the [print] of the handler raised. *)
Theorem confidence_in_unit_interval `{Interpreter} `{OcrEngine}
    (L : RoundingLaws) (pil_img : Image) (w : World) :
  (forall a d s cs,
     array_of pil_img = inr a ->
     image_to_data a confidence_config "eng" (engine w) = (inr d, s) ->
     column_conf d = Some cs ->
     forall x, In x cs -> (0 <= x <= 100)%Z) ->
  exists r w',
    extract_failure_text_with_confidence pil_img w = (r, w') /\
    unless_print_raised (fun v => (0 <= snd v <= 1)%Q) r /\
    (forall a toks s,
       array_of pil_img = inr a ->
       image_to_data a confidence_config "eng" (engine w)
       = (inr (tokens toks), s) ->
       exists t c, r = inr (t, c)).
Proof.
  intros Hd.
  assert (Z01 : (0 <= 0 <= 1)%Q) by (split; [apply Qle_refl|discriminate]).
  destruct (array_of pil_img) as [e|a] eqn:A.
  - destruct (with_confidence_unconverted pil_img w e A) as [w' [E _]].
    do 2 eexists; split; [exact E|]; split; [|discriminate].
    now apply handled_unless.
  - destruct (image_to_data a confidence_config "eng" (engine w))
      as [o s] eqn:C.
    destruct (with_confidence_run pil_img w a o s A C) as [w' [E _]].
    do 2 eexists; split; [exact E|]; split.
    + apply handled_unless.
      destruct o as [e|d]; simpl; [exact Z01|].
      destruct (text_and_confidence d) as [e|[t c]] eqn:T; [exact Z01|].
      apply (text_and_confidence_bounds L d t c); [|exact T].
      intros cs Col x Hx; exact (Hd a d s cs eq_refl C Col x Hx).
    + intros a' toks s' Ea C'; injection Ea as <-.
      rewrite C' in C; injection C as <- _.
      unfold confidence_cause, confidence_value.
      rewrite text_and_confidence_tokens; cbn [cause_of handled].
      destruct (filter kept toks); eauto.
Qed.

(** Confidences 100, 100 and 0 on three kept tokens, on binary64. *)
Lemma confidence_in_unit_interval_witness :
  let toks := [(py "a", 100%Z); (py "b", 100%Z); (py "c", 0%Z)] in
  let w := playing_data [inr (tokens toks)] in
  exists t c w',
    @extract_failure_text_with_confidence latin1_interpreter scripted_engine
      test_image w = (inr (t, c), w') /\
    (0 <= c <= 1)%Q.
Proof.
  intros toks w.
  destruct (@confidence_in_unit_interval latin1_interpreter scripted_engine
              binary64_rounding test_image w) as [r [w' [E [U T]]]].
  - intros a d s cs _ C Col x Hx.
    injection C as <- _; injection Col as <-.
    simpl in Hx; intuition (subst; lia).
  - destruct (T tt toks {| string_answers := []; data_answers := [] |}
                eq_refl eq_refl) as [t [c ->]].
    exists t, c, w'; split; [exact E|exact U].
Defined.

(** C10.  The average is computed only when the loop has kept at least one
    token: the two lists the loop builds have the same length, so in that
    branch the divisor [len(confidences)] is at least 1 and both divisions
    answer a value.  Whatever the engine answers, the computation does not
    raise [ZeroDivisionError]. *)
Theorem no_division_by_zero `{Interpreter} (ocr_data : OcrData) :
  text_and_confidence ocr_data <> inl ZeroDivisionError /\
  forall texts text_parts confidences,
    getitem_text ocr_data = inr texts ->
    token_loop ocr_data (enumerate texts) [] [] = inr (text_parts, confidences) ->
    len confidences = len text_parts /\
    (text_parts <> [] ->
     (1 <= len confidences)%Z /\
     exists mean avg_confidence,
       int_truediv (sum confidences) (len confidences) = inr mean /\
       float_truediv mean 100 = inr avg_confidence /\
       text_and_confidence ocr_data
       = inr (strip (join (py " ") text_parts), avg_confidence)) /\
    (text_parts = [] -> text_and_confidence ocr_data = inr (py "", 0%Q)).
Proof.
  assert (Main : forall texts text_parts confidences,
    getitem_text ocr_data = inr texts ->
    token_loop ocr_data (enumerate texts) [] [] = inr (text_parts, confidences) ->
    len confidences = len text_parts /\
    (text_parts <> [] ->
     (1 <= len confidences)%Z /\
     exists mean avg_confidence,
       int_truediv (sum confidences) (len confidences) = inr mean /\
       float_truediv mean 100 = inr avg_confidence /\
       text_and_confidence ocr_data
       = inr (strip (join (py " ") text_parts), avg_confidence)) /\
    (text_parts = [] -> text_and_confidence ocr_data = inr (py "", 0%Q))).
  { intros texts parts confs T K.
    pose proof (text_and_confidence_value ocr_data texts parts confs T K) as V.
    destruct (token_loop_grows _ _ _ _ _ _ K) as [ps1 [cs1 [-> [-> [Len _]]]]].
    simpl in *.
    assert (Hlen : len cs1 = len ps1) by (unfold len; now rewrite Len).
    split; [exact Hlen|]; split.
    - intros Hne.
      assert (Pos : (1 <= len cs1)%Z).
      { rewrite Hlen; unfold len; destruct ps1; simpl; [congruence|lia]. }
      split; [exact Pos|].
      exists (rnd (inject_Z (sum cs1) / inject_Z (len cs1))).
      exists (average cs1).
      split; [apply int_truediv_defined; lia|]; split; [reflexivity|].
      destruct ps1; [congruence|exact V].
    - intros ->; exact V. }
  split; [|exact Main].
  unfold text_and_confidence at 1.
  destruct (getitem_text ocr_data) as [e|texts] eqn:T; simpl.
  - unfold getitem_text in T; destruct (column_text ocr_data); congruence.
  - destruct (token_loop ocr_data (enumerate texts) [] [])
      as [e|[parts confs]] eqn:K; simpl.
    + intros Heq; injection Heq as ->.
      revert K; generalize (enumerate texts), (@nil pystr), (@nil Z).
      intros items; induction items as [|[i text] items IH]; simpl;
        intros ps cs; [discriminate|].
      destruct (truthy (strip text)); [|apply IH].
      unfold getitem_conf; destruct (column_conf ocr_data) as [col|]; simpl;
        [|discriminate].
      unfold list_getitem; destruct (nth_error col i); simpl;
        [apply IH|discriminate].
    + destruct (Main texts parts confs eq_refl K) as [_ [Hne Hemp]].
      destruct parts as [|p parts]; [discriminate|].
      destruct (Hne ltac:(discriminate)) as [_ [mean [avg [D1 [D2 _]]]]].
      rewrite D1; simpl; discriminate.
Qed.

(** The three tokens of the example: two are kept, the divisor is 2. *)
Lemma no_division_by_zero_witness :
  let ocr_data := tokens [(py "12", 90%Z); (py "", 0%Z); (py "%", 80%Z)] in
  getitem_text ocr_data = inr [py "12"; py ""; py "%"] /\
  token_loop ocr_data (enumerate [py "12"; py ""; py "%"]) [] []
  = inr ([py "12"; py "%"], [90; 80]%Z) /\
  len [90; 80]%Z = 2%Z /\
  exists mean avg_confidence,
    @int_truediv latin1_interpreter (sum [90; 80]%Z) (len [90; 80]%Z)
    = inr mean /\
    @float_truediv latin1_interpreter mean 100 = inr avg_confidence /\
    @text_and_confidence latin1_interpreter ocr_data
    = inr (py "12 %", avg_confidence).
Proof.
  intros ocr_data.
  split; [reflexivity|]; split; [reflexivity|]; split; [reflexivity|].
  destruct (proj2 (@no_division_by_zero latin1_interpreter ocr_data)
              [py "12"; py ""; py "%"] [py "12"; py "%"] [90; 80]%Z
              eq_refl eq_refl) as [_ [Dividing _]].
  destruct (Dividing ltac:(discriminate)) as [_ Values].
  exact Values.
Defined.

(** ** All six extractors *)

Section AllExtractorsFacts.
Context `{Interpreter} `{OcrEngine}.

Lemma text_extractors_fail_soft pil_img w :
  fail_soft 1 (extract_text pil_img) w /\
  fail_soft 1 (extract_number pil_img) w /\
  fail_soft 6 (extract_turn_number pil_img) w /\
  fail_soft 3 (extract_mood_text pil_img) w /\
  fail_soft 4 (extract_failure_text pil_img) w.
Proof.
  rewrite extract_text_shape, extract_number_shape,
    extract_mood_text_shape, extract_failure_text_shape.
  repeat split.
  - apply single_call_fail_soft.
  - apply single_call_fail_soft.
  - apply extract_turn_number_fail_soft.
  - apply (single_ladder_fail_soft mood_configs).
  - apply (single_ladder_fail_soft failure_configs).
Qed.

Lemma fail_soft_weaken k n (op : M pystr) w :
  k <= n -> fail_soft k op w -> fail_soft n op w.
Proof.
  intros Hk [r [w' [new [E [X [B U]]]]]].
  exists r, w', new; repeat split; auto; lia.
Qed.

Lemma unless_print_raised_impl {A} (P Q : A -> Prop) (r : result A) :
  (forall v, P v -> Q v) ->
  unless_print_raised P r -> unless_print_raised Q r.
Proof. intros PQ; destruct r; simpl; auto. Qed.

Lemma text_extractors_all pil_img w op :
  In op (text_extractors pil_img) -> fail_soft 6 op w.
Proof.
  destruct (text_extractors_fail_soft pil_img w) as [T [N [U [Mo F]]]].
  intros [<-|[<-|[<-|[<-|[<-|[]]]]]].
  - apply (fail_soft_weaken 1); [lia|exact T].
  - apply (fail_soft_weaken 1); [lia|exact N].
  - exact U.
  - apply (fail_soft_weaken 3); [lia|exact Mo].
  - apply (fail_soft_weaken 4); [lia|exact F].
Qed.

End AllExtractorsFacts.

Lemma ends_returns `{OcrEngine} {A} (op : M A) (w : World) (v : A)
    (new : list Call) (printed : list Warning) :
  ends op w (inr v) new printed -> returns op w v new.
Proof. intros [w' [E [Hc _]]]; exists w'; auto. Qed.

(** A call ends as its evaluation says. *)
Lemma ends_computed `{OcrEngine} {A} (op : M A) (w : World) (r : result A)
    (new : list Call) (printed : list Warning) :
  (fst (op w), calls (snd (op w)), stdout (snd (op w)))
  = (r, calls w ++ new, stdout w ++ printed) ->
  ends op w r new printed.
Proof.
  intros Eq; exists (snd (op w)).
  injection Eq as <- -> ->; split; [now destruct (op w)|auto].
Qed.

(** C3 does not hold of the code.  The handlers call [print] unguarded,
    and [print] raises when the standard output cannot encode the text of
    the exception.  With a standard output encoded in Windows-1252 and
    the engine's executable expected in a directory whose name is in
    Cyrillic letters and not found there, the first invocation raises,
    and each of the six extractors lets the [UnicodeEncodeError] of its
    handler through to its caller, with nothing printed. *)
Theorem print_error_leaves_handler :
  let I := cp1252_interpreter in
  let E := scripted_engine in
  let e := EngineError not_found_text in
  let w := playing [inl e] in
  let wd := playing_data [inl e] in
  ends (@extract_text I E test_image) w (inl UnicodeEncodeError)
    [StringCall text_config "eng" (inl e)] [] /\
  ends (@extract_number I E test_image) w (inl UnicodeEncodeError)
    [StringCall number_config "eng" (inl e)] [] /\
  ends (@extract_turn_number I E test_image) w (inl UnicodeEncodeError)
    [StringCall (hd "" turn_configs) "eng" (inl e)] [] /\
  ends (@extract_mood_text I E test_image) w (inl UnicodeEncodeError)
    [StringCall (hd "" mood_configs) "eng" (inl e)] [] /\
  ends (@extract_failure_text I E test_image) w (inl UnicodeEncodeError)
    [StringCall (hd "" failure_configs) "eng" (inl e)] [] /\
  ends (@extract_failure_text_with_confidence I E test_image) wd
    (inl UnicodeEncodeError)
    [DataCall confidence_config "eng" (inl e)] [].
Proof.
  intros I E e w wd.
  split; [|split; [|split; [|split; [|split]]]];
    (apply ends_computed; vm_compute; reflexivity).
Qed.

(** The engine raises on the second invocation of [extract_turn_number]:
    on a UTF-8 standard output the handler prints its line. *)
Example engine_error_example :
  let w := playing [inr (py "7x");
                    inl (EngineError (py "tesseract is not installed"))] in
  stdout (snd (@extract_turn_number exact_interpreter scripted_engine
                 test_image w))
  = [{| warn_prefix := "[WARNING] Turn number extraction failed: ";
        warn_cause := EngineError (py "tesseract is not installed") |}].
Proof. reflexivity. Qed.

(** C4.  The text each of the six extractors answers has no white space
    at either end: no character [str.strip()] removes, so no space, tab or
    newline.  This holds of the text of every call that answers, and a
    call answers unless the [print] of its handler raised. *)
Theorem extracted_text_is_trimmed `{Interpreter} `{OcrEngine}
    (pil_img : Image) (w : World) :
  (forall op, In op (text_extractors pil_img) ->
     exists r w',
       op w = (r, w') /\
       unless_print_raised
         (fun v => trimmed v = true /\ edges_ok space_tab_newline v = true)
         r) /\
  (exists r w',
     extract_failure_text_with_confidence pil_img w = (r, w') /\
     unless_print_raised
       (fun v => trimmed (fst v) = true /\
                 edges_ok space_tab_newline (fst v) = true) r).
Proof.
  split.
  - intros op Hop.
    destruct (text_extractors_all pil_img w op Hop)
      as [r [w' [new [E [_ [_ U]]]]]].
    exists r, w'; split; [exact E|].
    apply (unless_print_raised_impl _ _ _ (fun v T =>
             conj (proj1 T) (trimmed_plain v (proj1 T))) U).
  - destruct (with_confidence_fail_soft pil_img w)
      as [r [w' [new [E [_ [_ U]]]]]].
    exists r, w'; split; [exact E|].
    apply (unless_print_raised_impl _ _ _ (fun v T =>
             conj (proj1 T) (trimmed_plain (fst v) (proj1 T))) U).
Qed.

(** The answer of the engine carries white space of several kinds at both
    ends; the text that comes back is "Lv 3". *)
Lemma extracted_text_is_trimmed_witness :
  let raw := ([9; 10; 32; 160; 12288]%N ++ py "Lv 3" ++ [13; 10; 8232]%N) in
  let w := playing [inr raw] in
  exists v w',
    @extract_text exact_interpreter scripted_engine test_image w
    = (inr v, w') /\
    trimmed v = true /\
    v = py "Lv 3".
Proof.
  intros raw w.
  destruct (proj1 (@extracted_text_is_trimmed exact_interpreter scripted_engine
                     test_image w)
              (@extract_text exact_interpreter scripted_engine test_image))
    as [r [w' [E U]]].
  - left; reflexivity.
  - vm_compute in E; injection E as <- <-.
    exists (py "Lv 3"); eexists; split; [reflexivity|].
    split; [exact (proj1 U)|reflexivity].
Defined.

(** C6, as the source has it.  One call invokes the engine at most once in
    [extract_text], [extract_number] and
    [extract_failure_text_with_confidence], at most 3 times in
    [extract_mood_text], at most 4 times in [extract_failure_text] and at
    most 6 times in [extract_turn_number], whose second pass invokes the
    three profiles again. *)
Theorem invocation_bounds `{Interpreter} `{OcrEngine}
    (pil_img : Image) (w : World) :
  invocations_at_most 1 (extract_text pil_img) w /\
  invocations_at_most 1 (extract_number pil_img) w /\
  invocations_at_most 6 (extract_turn_number pil_img) w /\
  invocations_at_most 3 (extract_mood_text pil_img) w /\
  invocations_at_most 4 (extract_failure_text pil_img) w /\
  invocations_at_most 1 (extract_failure_text_with_confidence pil_img) w.
Proof.
  assert (Soft : forall k op, fail_soft k op w -> invocations_at_most k op w).
  { intros k op [r [w' [new [E [X [B _]]]]]].
    exists new; rewrite E; auto. }
  destruct (text_extractors_fail_soft pil_img w) as [T [N [U [Mo F]]]].
  repeat split; try (apply Soft; assumption).
  destruct (with_confidence_fail_soft pil_img w)
    as [r [w' [new [E [X [B _]]]]]].
  exists new; rewrite E; auto.
Qed.

(** C6 as it is stated fails: when every answer of the engine is empty,
    [extract_turn_number] invokes it six times. *)
Lemma four_invocations_counterexample :
  ~ (forall (I : Interpreter) (E : OcrEngine) (pil_img : Image) (w : World),
       invocations_at_most 4 (extract_turn_number pil_img) w).
Proof.
  intros Claim.
  destruct (Claim exact_interpreter scripted_engine test_image (playing []))
    as [new [X B]].
  unfold extends in X; vm_compute in X; subst new.
  simpl in B; lia.
Qed.

(** ** Digits *)

Lemma first_pass_returns `{Interpreter} `{OcrEngine}
    (pil_img : Image) (a : NdArray) (w w1 : World) (t : pystr) :
  array_of pil_img = inr a ->
  turn_first_pass a turn_configs w = (inr (Some t), w1) ->
  extract_turn_number pil_img w = (inr t, w1) /\ qualifies t = true.
Proof.
  intros A P; split.
  - unfold extract_turn_number, try_except, bind, to_ndarray, lift.
    now rewrite A, P.
  - destruct (engine_run a turn_configs (engine w)) as [outs s] eqn:R.
    destruct (scan qualifies outs) as [r n] eqn:S.
    destruct (ladder_scan qualifies a turn_configs w outs s r n R S)
      as [w' [L _]].
    change (ladder qualifies a turn_configs w)
      with (turn_first_pass a turn_configs w) in L.
    rewrite P in L; injection L as <- _.
    apply (scan_some _ _ _ _ S).
Qed.

(** C5, as the source has it.  When the first pass of
    [extract_turn_number] returns a text, that text is the function's
    answer, it is not empty and each of its characters passes the digit
    test of [str.isdigit()]; when its characters are ASCII they are among
    0-9.  [extract_number] makes no digit test: whatever text the engine
    answers, it returns that text trimmed. *)
Theorem digits_after_first_pass `{Interpreter} `{OcrEngine}
    (pil_img : Image) (a : NdArray) (w : World) :
  array_of pil_img = inr a ->
  (forall t w1,
     turn_first_pass a turn_configs w = (inr (Some t), w1) ->
     extract_turn_number pil_img w = (inr t, w1) /\
     truthy t = true /\
     forallb (isdigit_char uni_digit) t = true /\
     (is_ascii t = true -> ascii_digits_only t = true)) /\
  (forall raw s,
     image_to_string a number_config "eng" (engine w) = (inr raw, s) ->
     returns (extract_number pil_img) w (strip raw)
       [StringCall number_config "eng" (inr raw)]).
Proof.
  intros A; split.
  - intros t w1 P.
    destruct (first_pass_returns pil_img a w w1 t A P) as [E Q].
    unfold qualifies in Q; apply andb_true_iff in Q; destruct Q as [Tr D].
    split; [exact E|]; split; [exact Tr|]; split.
    + unfold isdigit in D; apply andb_true_iff in D; apply D.
    + intros Hascii; now apply isdigit_ascii_digits.
  - intros raw s C.
    rewrite extract_number_shape.
    exact (ends_returns _ _ _ _ _
             (single_call_run number_config _ pil_img w a (inr raw) s A C)).
Qed.

(** The first profile answers "12O" and the second "45": the first pass
    returns "45", which is all digits. *)
Lemma digits_after_first_pass_witness :
  let w := playing [inr (py "12O"); inr (py "45")] in
  array_of test_image = inr tt /\
  exists w1,
    @turn_first_pass exact_interpreter scripted_engine tt turn_configs w
    = (inr (Some (py "45")), w1) /\
    @extract_turn_number exact_interpreter scripted_engine test_image w
    = (inr (py "45"), w1) /\
    ascii_digits_only (py "45") = true.
Proof.
  intros w; split; [reflexivity|].
  eexists; split; [reflexivity|].
  destruct (proj1 (@digits_after_first_pass exact_interpreter scripted_engine
                     test_image tt w eq_refl) (py "45") _ eq_refl)
    as [E [_ [_ D]]].
  split; [exact E|apply D; reflexivity].
Defined.

(** C5 as it is stated fails.  [extract_number] returns "1 2" when the
    engine answers "1 2": the space inside is not trimmed and no digit
    test is made.  And the first pass of [extract_turn_number] returns a
    superscript two, which [str.isdigit()] accepts. *)
Lemma digits_only_counterexample :
  (fst (@extract_number exact_interpreter scripted_engine test_image (playing [inr (py "1 2")]))
   = inr (py "1 2") /\
   truthy (py "1 2") = true /\
   ascii_digits_only (py "1 2") = false) /\
  (fst (@turn_first_pass latin1_interpreter scripted_engine tt turn_configs
          (playing [inr [178%N]]))
   = inr (Some [178%N]) /\
   fst (@extract_turn_number latin1_interpreter scripted_engine test_image
          (playing [inr [178%N]]))
   = inr [178%N] /\
   ascii_digits_only [178%N] = false).
Proof. repeat split. Qed.

(** ** One pass instead of two *)

Section SinglePassFacts.
Context `{Interpreter} `{OcrEngine}.

Lemma single_pass_loop_scan a configs :
  forall w recorded outs s',
    engine_run a configs (engine w) = (outs, s') ->
    exists w',
      single_pass_loop a configs recorded w = (record_scan outs recorded, w').
Proof.
  induction configs as [|c configs IH]; intros w recorded outs s' R.
  - simpl in R; injection R as <- _; eexists; reflexivity.
  - simpl in R.
    destruct (image_to_string a c "eng" (engine w)) as [o s1] eqn:C.
    destruct (engine_run a configs s1) as [rs s2] eqn:R'.
    injection R as <- _.
    simpl single_pass_loop; unfold bind, pytesseract_image_to_string.
    rewrite C.
    destruct o as [e|raw]; simpl; [eexists; reflexivity|].
    change (truthy (strip raw) && isdigit uni_digit (strip raw))
      with (qualifies (strip raw)).
    destruct (qualifies (strip raw)); [eexists; reflexivity|].
    match goal with |- context [single_pass_loop a configs ?r ?w1] =>
      apply (IH w1 r rs s2 R')
    end.
Qed.

Lemma extract_turn_number_single_pass_run pil_img w a outs s :
  array_of pil_img = inr a ->
  engine_run a turn_configs (engine w) = (outs, s) ->
  fst (extract_turn_number_single_pass pil_img w)
  = handled turn_prefix (cause_of (record_scan outs []))
      (single_pass_value (record_scan outs [])).
Proof.
  intros A R.
  destruct (single_pass_loop_scan a turn_configs w [] outs s R) as [w' L].
  unfold extract_turn_number_single_pass, try_except, bind, to_ndarray, lift.
  rewrite A, L.
  destruct (record_scan outs []) as [e|[[t|] rec]]; try reflexivity.
  unfold print, turn_prefix; simpl.
  now destruct (writable "[WARNING] Turn number extraction failed: " e).
Qed.

Lemma engine_run_deterministic f a configs :
  (forall a config lang s,
     fst (image_to_string a config lang s) = f a config lang) ->
  forall s,
    fst (engine_run a configs s) = map (fun config => f a config "eng") configs.
Proof.
  intros D; induction configs as [|c configs IH]; intros s; [reflexivity|].
  simpl; specialize (D a c "eng" s).
  destruct (image_to_string a c "eng" s) as [o s1]; simpl in D.
  specialize (IH s1); destruct (engine_run a configs s1) as [rs s2].
  simpl in *; now rewrite D, IH.
Qed.

End SinglePassFacts.

Lemma scan_app_rejected accept pre suf :
  all_rejected accept pre ->
  scan accept (pre ++ suf)
  = (fst (scan accept suf), List.length pre + snd (scan accept suf)).
Proof.
  induction pre as [|o pre IH]; intros R; simpl.
  - now destruct (scan accept suf).
  - destruct (R o (or_introl eq_refl)) as [raw [-> A]]; rewrite A.
    rewrite IH; [reflexivity|].
    intros o' Ho'; apply R; now right.
Qed.

Lemma scan_truthy_find (raws : list pystr) :
  value_of (fst (scan truthy (map inr raws)))
  = first_recorded (map strip raws).
Proof.
  unfold first_recorded; induction raws as [|raw raws IH]; [reflexivity|].
  simpl; destruct (truthy (strip raw)); [reflexivity|].
  destruct (scan truthy (map inr raws)); exact IH.
Qed.

Lemma two_pass_single_pass `{Interpreter} (suf : list (result pystr)) :
  forall pre : list pystr,
    all_rejected qualifies (map inr pre) ->
    two_pass_value (map inr pre ++ suf)
    = single_pass_value (record_scan suf (map strip pre)).
Proof.
  induction suf as [|[e|raw] suf IH]; intros pre R;
    unfold two_pass_value, turn_outcome.
  - rewrite app_nil_r, (scan_all_rejected _ _ R); simpl.
    rewrite <- scan_truthy_find.
    now destruct (scan truthy (map inr pre)).
  - rewrite (scan_app_rejected _ _ _ R); reflexivity.
  - rewrite (scan_app_rejected _ _ _ R); simpl.
    destruct (qualifies (strip raw)) eqn:Q; [reflexivity|].
    assert (R' : all_rejected qualifies (map inr (pre ++ [raw]))).
    { rewrite map_app; intros o Ho; apply in_app_or in Ho.
      destruct Ho as [Ho|[<-|[]]]; [now apply R|now exists raw]. }
    specialize (IH (pre ++ [raw]) R').
    unfold two_pass_value, turn_outcome in IH.
    rewrite !map_app, <- !app_assoc in IH; simpl in IH.
    rewrite (scan_app_rejected _ _ _ R) in IH; simpl in IH; rewrite Q in IH.
    destruct (scan qualifies suf) as [r n]; exact IH.
Qed.

Lemma scan_answers accept (raws : list pystr) :
  cause_of (fst (scan accept (map inr raws))) = None.
Proof.
  induction raws as [|raw raws IH]; [reflexivity|]; simpl.
  destruct (accept (strip raw)); [reflexivity|].
  now destruct (scan accept (map inr raws)).
Qed.

(** The two variants enter their handlers with the same exception. *)
Lemma two_pass_single_pass_cause `{Interpreter}
    (suf : list (result pystr)) :
  forall pre : list pystr,
    all_rejected qualifies (map inr pre) ->
    turn_cause (map inr pre ++ suf) (map inr pre ++ suf)
    = cause_of (record_scan suf (map strip pre)).
Proof.
  induction suf as [|[e|raw] suf IH]; intros pre R; unfold turn_cause.
  - rewrite app_nil_r, (scan_all_rejected _ _ R); simpl.
    apply scan_answers.
  - rewrite (scan_app_rejected _ _ _ R); reflexivity.
  - rewrite (scan_app_rejected _ _ _ R); simpl.
    destruct (qualifies (strip raw)) eqn:Q; [reflexivity|].
    assert (R' : all_rejected qualifies (map inr (pre ++ [raw]))).
    { rewrite map_app; intros o Ho; apply in_app_or in Ho.
      destruct Ho as [Ho|[<-|[]]]; [now apply R|now exists raw]. }
    specialize (IH (pre ++ [raw]) R').
    unfold turn_cause in IH.
    rewrite !map_app, <- !app_assoc in IH; simpl in IH.
    rewrite (scan_app_rejected _ _ _ R) in IH; simpl in IH; rewrite Q in IH.
    destruct (scan qualifies suf) as [r n]; exact IH.
Qed.

(** C9.  The second pass of [extract_turn_number] invokes the engine again
    instead of reusing the answers of the first pass.  With an engine
    whose answer is a function of the image and the configuration, the
    function returns what the single-pass variant returns: the variant
    that records the trimmed answer of each profile and, when none is
    non-empty and all digits, falls back to the first recorded non-empty
    one. *)
Theorem two_passes_equal_single_pass `{Interpreter} `{OcrEngine}
    (pil_img : Image) (w : World) :
  deterministic ->
  fst (extract_turn_number pil_img w)
  = fst (extract_turn_number_single_pass pil_img w).
Proof.
  intros [f D].
  destruct (array_of pil_img) as [e|a] eqn:A.
  - unfold extract_turn_number, extract_turn_number_single_pass.
    unfold try_except, bind, to_ndarray, lift; now rewrite A.
  - destruct (engine_run a turn_configs (engine w)) as [outs1 s1] eqn:R1.
    destruct (engine_run a turn_configs s1) as [outs2 s2] eqn:R2.
    destruct (extract_turn_number_run pil_img w a outs1 s1 outs2 s2 A R1 R2)
      as [w' [E _]].
    rewrite E, (extract_turn_number_single_pass_run pil_img w a outs1 s1 A R1).
    assert (Same : outs2 = outs1).
    { pose proof (engine_run_deterministic f a turn_configs D (engine w)) as D1.
      pose proof (engine_run_deterministic f a turn_configs D s1) as D2.
      rewrite R1 in D1; rewrite R2 in D2; simpl in *; congruence. }
    rewrite Same; cbn [fst].
    rewrite (two_pass_single_pass_cause outs1 []) by (intros o []).
    f_equal.
    apply (two_pass_single_pass outs1 []).
    intros o [].
Qed.

Lemma two_passes_equal_single_pass_witness :
  let E := table_engine by_profile in
  let w := @initial_world E tt in
  @deterministic E /\
  fst (@extract_turn_number exact_interpreter E (@Pil E tt) w)
  = fst (@extract_turn_number_single_pass exact_interpreter E (@Pil E tt) w) /\
  fst (@extract_turn_number exact_interpreter E (@Pil E tt) w)
  = inr (py "Turn").
Proof.
  intros E w.
  assert (D : @deterministic E)
    by (exists (fun _ config _ => by_profile config); reflexivity).
  split; [exact D|]; split; [|reflexivity].
  exact (@two_passes_equal_single_pass exact_interpreter E (@Pil E tt) w D).
Defined.

(** * Further properties *)

(** ** Traces of a scan *)

Lemma last_call_cons (c : Call) (rest : list Call) :
  rest <> [] -> last_call (c :: rest) = last_call rest.
Proof. destruct rest; [congruence|reflexivity]. Qed.

Lemma last_call_app (l1 l2 : list Call) :
  l2 <> [] -> last_call (l1 ++ l2) = last_call l2.
Proof.
  intros N; induction l1 as [|c l1 IH]; [reflexivity|].
  simpl app; rewrite last_call_cons; [exact IH|].
  destruct l1; simpl; [exact N|discriminate].
Qed.

(** The invocations a scan looks at: they ask for the profiles in order,
    only the last one may have raised, and the scan's result is read off
    the last one. *)
Lemma scan_trace_facts accept :
  forall outs configs r n,
    List.length configs = List.length outs ->
    scan accept outs = (r, n) ->
    List.length (firstn n (trace configs outs)) = n /\
    (outs <> [] -> 1 <= n) /\
    map call_request (firstn n (trace configs outs))
    = firstn n (string_requests configs) /\
    raise_is_last (firstn n (trace configs outs)) = true /\
    last_cause (firstn n (trace configs outs))
    = match r with inl e => Some e | inr _ => None end /\
    (forall t, r = inr (Some t) ->
       exists raw,
         last_answer (firstn n (trace configs outs)) = Some raw /\
         t = strip raw).
Proof.
  induction outs as [|o outs IH]; intros [|c configs] r n L S;
    simpl in L; try discriminate.
  - simpl in S; injection S as <- <-; simpl.
    repeat split; try reflexivity; try congruence; discriminate.
  - injection L as L; simpl in S.
    destruct o as [e|raw].
    + injection S as <- <-; simpl.
      repeat split; try reflexivity; try lia; discriminate.
    + destruct (accept (strip raw)) eqn:A.
      * injection S as <- <-; simpl.
        repeat split; try reflexivity; try lia.
        intros t E; injection E as <-; now exists raw.
      * destruct (scan accept outs) as [r' n'] eqn:S'.
        injection S as <- <-.
        destruct (IH configs r' n' L eq_refl) as [Len [Pos [Req [Last [Cause Ans]]]]].
        change (trace (c :: configs) (inr raw :: outs))
          with (StringCall c "eng" (inr raw) :: trace configs outs).
        change (string_requests (c :: configs))
          with ((false, c, "eng") :: string_requests configs).
        rewrite !firstn_cons.
        set (T := firstn n' (trace configs outs)) in *.
        split; [simpl; now rewrite Len|].
        split; [intros _; lia|].
        split; [simpl; now rewrite Req|].
        destruct T as [|c' T'] eqn:ET.
        { (* nothing follows: the scan ended on an empty rest *)
          simpl in Len; subst n'.
          destruct outs as [|o' outs'].
          - simpl in S'; injection S' as <-.
            repeat split; try reflexivity; discriminate.
          - exfalso; specialize (Pos ltac:(discriminate)); lia. }
        unfold raise_is_last, last_cause, last_answer in *.
        rewrite last_call_cons by discriminate.
        split; [|split; assumption].
        change (removelast (StringCall c "eng" (inr raw) :: c' :: T'))
          with (StringCall c "eng" (inr raw) :: removelast (c' :: T')).
        simpl forallb; exact Last.
Qed.

Lemma raised_cause_none (c : Call) :
  raised_cause c = None -> call_raised c = false.
Proof. destruct c as [? ? [e|?]|? ? [e|?]]; simpl; congruence. Qed.

(** A trace whose last invocation did not raise and in which only the last
    may have raised holds no raise at all. *)
Lemma clean_trace (new : list Call) :
  raise_is_last new = true -> last_cause new = None ->
  forallb (fun c => negb (call_raised c)) new = true.
Proof.
  unfold raise_is_last, last_cause.
  induction new as [|c [|c' rest] IH]; [reflexivity| |].
  - simpl; intros _ Hc; now rewrite (raised_cause_none c Hc).
  - change (removelast (c :: c' :: rest)) with (c :: removelast (c' :: rest)).
    rewrite last_call_cons by discriminate.
    simpl forallb at 1; rewrite andb_true_iff; intros [Hc Hr] Hl.
    change (forallb (fun c0 => negb (call_raised c0)) (c :: c' :: rest))
      with (negb (call_raised c)
            && forallb (fun c0 => negb (call_raised c0)) (c' :: rest)).
    rewrite Hc; exact (IH Hr Hl).
Qed.

Ltac six_clauses := split; [|split; [|split; [|split; [|split]]]].

Section Behaviour.
Context `{Interpreter} `{OcrEngine}.

Lemma single_call_behaves config prefix pil_img w :
  behaves pil_img w (single_call config prefix pil_img, prefix, [config]).
Proof.
  unfold behaves, caught_by.
  destruct (array_of pil_img) as [e|a] eqn:A.
  - exists (py ""), [].
    split; [exact (single_call_unconverted config prefix pil_img w e A)|].
    six_clauses; try reflexivity; try discriminate; try congruence.
    intros e' _; split; reflexivity.
  - destruct (image_to_string a config "eng" (engine w)) as [o s] eqn:C.
    exists (match o with inr raw => strip raw | inl _ => py "" end).
    exists [StringCall config "eng" o].
    split; [exact (single_call_run config prefix pil_img w a o s A C)|].
    destruct o as [e|raw]; simpl.
    + six_clauses; try reflexivity; try discriminate; auto.
    + six_clauses; try reflexivity; try discriminate; auto.
      * intros Hc; exfalso; apply Hc; reflexivity.
      * intros _; now exists raw.
Qed.

Lemma single_ladder_behaves configs prefix pil_img w :
  configs <> [] ->
  behaves pil_img w (single_ladder configs prefix pil_img, prefix, configs).
Proof.
  intros Ne; unfold behaves, caught_by.
  destruct (array_of pil_img) as [e|a] eqn:A.
  - exists (py ""), [].
    split; [exact (single_ladder_unconverted configs prefix pil_img w e A)|].
    six_clauses; try reflexivity; try discriminate; try congruence.
    intros e' _; split; reflexivity.
  - destruct (engine_run a configs (engine w)) as [outs s] eqn:R.
    destruct (scan truthy outs) as [r n] eqn:S.
    pose proof (engine_run_length _ _ _ _ _ R) as Len.
    destruct (scan_trace_facts truthy outs configs r n (eq_sym Len) S)
      as [Tn [Pos [Req [Last [Cause Ans]]]]].
    exists (value_of r), (firstn n (trace configs outs)).
    rewrite Cause, Tn.
    split;
      [exact (single_ladder_run configs prefix pil_img w a outs s r n A R S)|].
    split; [exact Req|]; split; [exact Last|].
    split; [intros e; discriminate|].
    split; [intros _ _; apply Pos; destruct outs, configs;
              simpl in *; congruence|].
    split.
    + destruct r as [e|o]; [reflexivity|congruence].
    + destruct r as [e|[t|]]; simpl; try discriminate.
      intros _; apply Ans; reflexivity.
Qed.

Lemma extract_turn_number_behaves pil_img w :
  behaves pil_img w
    (extract_turn_number pil_img,
     "[WARNING] Turn number extraction failed: ",
     turn_configs ++ turn_configs).
Proof.
  unfold behaves, caught_by.
  destruct (array_of pil_img) as [e|a] eqn:A.
  - exists (py ""), [].
    split; [exact (extract_turn_number_unconverted pil_img w e A)|].
    six_clauses; try reflexivity; try discriminate; try congruence.
    intros e' _; split; reflexivity.
  - destruct (engine_run a turn_configs (engine w)) as [outs1 s1] eqn:R1.
    destruct (engine_run a turn_configs s1) as [outs2 s2] eqn:R2.
    pose proof (extract_turn_number_run pil_img w a outs1 s1 outs2 s2 A R1 R2)
      as Run.
    unfold turn_outcome, turn_cause in Run.
    destruct (scan qualifies outs1) as [r1 n1] eqn:S1.
    pose proof (engine_run_length _ _ _ _ _ R1) as Len1.
    destruct (scan_trace_facts qualifies outs1 turn_configs r1 n1
                (eq_sym Len1) S1) as [Tn1 [Pos1 [Req1 [Last1 [Cause1 Ans1]]]]].
    assert (Le1 : n1 <= 3).
    { rewrite <- Tn1, length_firstn, trace_length by exact Len1.
      apply Nat.le_min_r. }
    assert (Short : forall T : list Call,
               List.length T = n1 ->
               map call_request T = firstn n1 (string_requests turn_configs) ->
               map call_request T
               = firstn (List.length T)
                   (string_requests (turn_configs ++ turn_configs))).
    { intros T LT RT; rewrite RT, LT.
      unfold string_requests; rewrite map_app, firstn_app.
      replace (n1 - List.length (map _ turn_configs)) with 0
        by (rewrite length_map; simpl; lia).
      now rewrite firstn_O, app_nil_r. }
    destruct r1 as [e|[t|]].
    + exists (py ""), (firstn n1 (trace turn_configs outs1)).
      rewrite Cause1; split; [exact Run|].
      split; [apply Short; assumption|]; split; [exact Last1|].
      split; [intros e'; discriminate|].
      split; [intros _ _; rewrite Tn1; apply Pos1;
                destruct outs1; simpl in *; congruence|].
      split; [reflexivity|discriminate].
    + exists t, (firstn n1 (trace turn_configs outs1)).
      rewrite Cause1; split; [exact Run|].
      split; [apply Short; assumption|]; split; [exact Last1|].
      split; [intros e'; discriminate|].
      split; [intros _ _; rewrite Tn1; apply Pos1;
                destruct outs1; simpl in *; congruence|].
      split; [congruence|intros _; apply Ans1; reflexivity].
    + destruct (scan truthy outs2) as [r2 n2] eqn:S2.
      pose proof (engine_run_length _ _ _ _ _ R2) as Len2.
      destruct (scan_trace_facts truthy outs2 turn_configs r2 n2
                  (eq_sym Len2) S2) as [Tn2 [Pos2 [Req2 [Last2 [Cause2 Ans2]]]]].
      assert (P2 : 1 <= n2)
        by (apply Pos2; destruct outs2; simpl in *; congruence).
      destruct (scan_none _ _ _ S1) as [N1 _].
      assert (Whole : firstn n1 (trace turn_configs outs1)
                      = trace turn_configs outs1).
      { apply firstn_all2; rewrite trace_length by exact Len1.
        rewrite N1, Len1; reflexivity. }
      rewrite Whole in *.
      set (T1 := trace turn_configs outs1) in *.
      set (T2 := firstn n2 (trace turn_configs outs2)) in *.
      assert (NE2 : T2 <> []) by (destruct T2; simpl in *; [lia|discriminate]).
      assert (Clean1 : forallb (fun c => negb (call_raised c)) T1 = true)
        by (apply clean_trace; assumption).
      exists (value_of r2), (T1 ++ T2).
      unfold last_cause in *; rewrite last_call_app by exact NE2.
      rewrite Cause2; split; [exact Run|].
      split.
      { rewrite map_app, Req1, Req2, length_app, Tn1, Tn2.
        unfold string_requests; rewrite map_app.
        assert (W : firstn n1 (map (fun config => (false, config, "eng"))
                                 turn_configs)
                    = map (fun config => (false, config, "eng")) turn_configs).
        { apply firstn_all2; rewrite length_map, N1, Len1; lia. }
        rewrite W.
        replace n1 with (List.length (map (fun config : string =>
                             (false, config, "eng")) turn_configs))
          by (rewrite length_map, N1, Len1; reflexivity).
        now rewrite firstn_app_2. }
      split.
      { unfold raise_is_last in *.
        rewrite removelast_app by exact NE2.
        now rewrite forallb_app, Clean1. }
      split; [intros e'; discriminate|].
      split; [intros _ _; rewrite length_app; lia|].
      split.
      { destruct r2 as [e|o]; [reflexivity|congruence]. }
      unfold last_answer in *; rewrite last_call_app by exact NE2.
      destruct r2 as [e|[t|]]; simpl; try discriminate.
      intros _; apply Ans2; reflexivity.
Qed.

(** Every entry of the table behaves. *)
Lemma text_extractor_table_behaves pil_img w entry :
  In entry (text_extractor_table pil_img) -> behaves pil_img w entry.
Proof.
  intros [<-|[<-|[<-|[<-|[<-|[]]]]]].
  - rewrite extract_text_shape; apply single_call_behaves.
  - rewrite extract_number_shape; apply single_call_behaves.
  - apply extract_turn_number_behaves.
  - rewrite extract_mood_text_shape; apply single_ladder_behaves; discriminate.
  - rewrite extract_failure_text_shape; apply single_ladder_behaves;
      discriminate.
Qed.

End Behaviour.

(** ** What a call prints, invokes and returns *)


Lemma raise_is_last_split (pre post : list Call) (c : Call) :
  raise_is_last (pre ++ c :: post) = true -> post <> [] ->
  call_raised c = false.
Proof.
  unfold raise_is_last; intros Hl Hp.
  rewrite removelast_app in Hl by discriminate.
  rewrite forallb_app, andb_true_iff in Hl; destruct Hl as [_ Hl].
  destruct post as [|c' post]; [congruence|].
  change (removelast (c :: c' :: post)) with (c :: removelast (c' :: post))
    in Hl.
  simpl in Hl; rewrite andb_true_iff, negb_true_iff in Hl; apply Hl.
Qed.





(** X3.  In the invocations a call of a text extractor makes, only the
    last one can have raised: once an invocation raises, the engine is not
    invoked again in that call.  The call answers a value unless the
    [print] of its handler raised. *)
Theorem no_invocation_after_a_raise `{Interpreter} `{OcrEngine}
    (pil_img : Image) (w : World)
    (op : M pystr) (prefix : string) (profiles : list string) :
  In (op, prefix, profiles) (text_extractor_table pil_img) ->
  exists r new printed,
    ends op w r new printed /\
    unless_print_raised (fun _ => True) r /\
    forall before c after,
      new = before ++ c :: after -> call_raised c = true -> after = [].
Proof.
  intros Hin.
  destruct (text_extractor_table_behaves pil_img w _ Hin)
    as [v [new [Lg [_ [Last _]]]]].
  do 3 eexists; split; [exact Lg|]; split; [now apply handled_unless|].
  intros before c after -> Hr.
  destruct after as [|c' after]; [reflexivity|exfalso].
  rewrite (raise_is_last_split before (c' :: after) c Last) in Hr;
    discriminate.
Qed.

(** The first of the six possible invocations of [extract_turn_number]
    raises: it is the only one made. *)
Lemma no_invocation_after_a_raise_witness :
  let broken := EngineError (py "tesseract crashed") in
  let w := playing [inl broken; inr (py "12")] in
  let op := @extract_turn_number exact_interpreter scripted_engine test_image in
  let prefix := "[WARNING] Turn number extraction failed: " in
  In (op, prefix, turn_configs ++ turn_configs)
    (@text_extractor_table exact_interpreter scripted_engine test_image) /\
  exists r printed,
    ends op w r
      [StringCall "--oem 3 --psm 8 -c tessedit_char_whitelist=0123456789"
         "eng" (inl broken)] printed.
Proof.
  intros broken w op prefix.
  assert (Hin : In (op, prefix, turn_configs ++ turn_configs)
                  (@text_extractor_table exact_interpreter scripted_engine
                     test_image))
    by (right; right; left; reflexivity).
  split; [exact Hin|].
  destruct (@no_invocation_after_a_raise exact_interpreter scripted_engine
              test_image w op prefix _ Hin)
    as [r [new [printed [Lg [_ Stop]]]]].
  exists r, printed.
  assert (Hnew : exists after,
             new = [] ++ StringCall
                           "--oem 3 --psm 8 -c tessedit_char_whitelist=0123456789"
                           "eng" (inl broken) :: after).
  { destruct Lg as [w' [E [Hc _]]].
    vm_compute in E; injection E as _ <-.
    vm_compute in Hc; subst new; now exists []. }
  destruct Hnew as [after Hnew].
  rewrite (Stop [] _ after Hnew eq_refl) in Hnew; simpl in Hnew.
  rewrite <- Hnew; exact Lg.
Defined.

(** X4.  A non-empty text answered by a text extractor is the trimmed
    answer of the last invocation the call made: the call stops at the
    profile whose answer it returns.  The call answers a text unless the
    [print] of its handler raised. *)
Theorem answer_of_last_invocation `{Interpreter} `{OcrEngine}
    (pil_img : Image) (w : World)
    (op : M pystr) (prefix : string) (profiles : list string) :
  In (op, prefix, profiles) (text_extractor_table pil_img) ->
  exists r new printed,
    ends op w r new printed /\
    unless_print_raised
      (fun v => truthy v = true ->
                exists raw, last_answer new = Some raw /\ v = strip raw) r.
Proof.
  intros Hin.
  destruct (text_extractor_table_behaves pil_img w _ Hin)
    as [v [new [Lg [_ [_ [_ [_ [_ Ans]]]]]]]].
  do 3 eexists; split; [exact Lg|now apply handled_unless].
Qed.

(** [extract_failure_text] gets nothing, then " 30% (Lv 2)": it answers
    that text trimmed, from its second and last invocation. *)
Lemma answer_of_last_invocation_witness :
  let w := playing [inr (py ""); inr (py " 30% (Lv 2)")] in
  let op := @extract_failure_text exact_interpreter scripted_engine test_image in
  let prefix := "[WARNING] Failure text extraction failed: " in
  In (op, prefix, failure_configs)
    (@text_extractor_table exact_interpreter scripted_engine test_image) /\
  exists v new printed,
    logs op w v new printed /\
    List.length new = 2 /\
    last_answer new = Some (py " 30% (Lv 2)") /\
    v = py "30% (Lv 2)".
Proof.
  intros w op prefix.
  assert (Hin : In (op, prefix, failure_configs)
                  (@text_extractor_table exact_interpreter scripted_engine
                     test_image))
    by (do 4 right; left; reflexivity).
  split; [exact Hin|].
  destruct (@answer_of_last_invocation exact_interpreter scripted_engine
              test_image w op prefix _ Hin) as [r [new [printed [Lg Ans]]]].
  pose proof Lg as [w' [E [Hc _]]].
  vm_compute in E; injection E as <- <-.
  vm_compute in Hc; subst new.
  do 3 eexists; split; [exact Lg|].
  destruct (Ans eq_refl) as [raw [La Ev]].
  repeat split; reflexivity.
Defined.

(** X5.  The invocations of a call follow the profile list of the
    extractor: plain-text requests with its configurations, in order and
    without a gap, always for the language "eng"; for
    [extract_turn_number] the list is its three profiles twice.  A call
    whose image converts makes at least one invocation.
    [extract_failure_text_with_confidence] then makes exactly one, a
    token-level request with its single configuration.  Each call answers
    a value unless the [print] of its handler raised. *)
Theorem invocations_follow_profiles `{Interpreter} `{OcrEngine}
    (pil_img : Image) (a : NdArray) (w : World) :
  array_of pil_img = inr a ->
  (forall op prefix profiles,
     In (op, prefix, profiles) (text_extractor_table pil_img) ->
     exists r new printed,
       ends op w r new printed /\
       unless_print_raised (fun _ => True) r /\
       1 <= List.length new /\
       map call_request new
       = firstn (List.length new) (string_requests profiles)) /\
  (exists r o printed,
     ends (extract_failure_text_with_confidence pil_img) w r
       [DataCall confidence_config "eng" o] printed /\
     unless_print_raised (fun _ => True) r).
Proof.
  intros A; split.
  - intros op prefix profiles Hin.
    destruct (text_extractor_table_behaves pil_img w _ Hin)
      as [v [new [Lg [Req [_ [_ [Pos _]]]]]]].
    do 3 eexists; split; [exact Lg|].
    split; [now apply handled_unless|]; split; [|exact Req].
    apply (Pos a A).
  - destruct (image_to_data a confidence_config "eng" (engine w))
      as [o s] eqn:C.
    do 3 eexists; split;
      [apply (with_confidence_run pil_img w a o s A C)
      |now apply handled_unless].
Qed.

(** [extract_turn_number] on an engine that answers nothing makes six
    invocations: its three profiles, twice. *)
Lemma invocations_follow_profiles_witness :
  let w := playing [] in
  let op := @extract_turn_number exact_interpreter scripted_engine test_image in
  let prefix := "[WARNING] Turn number extraction failed: " in
  (array_of test_image = inr tt /\
   In (op, prefix, turn_configs ++ turn_configs)
     (@text_extractor_table exact_interpreter scripted_engine test_image)) /\
  exists r new printed,
    ends op w r new printed /\
    map call_request new = string_requests (turn_configs ++ turn_configs).
Proof.
  intros w op prefix.
  assert (Hin : In (op, prefix, turn_configs ++ turn_configs)
                  (@text_extractor_table exact_interpreter scripted_engine
                     test_image))
    by (right; right; left; reflexivity).
  split; [split; [reflexivity|exact Hin]|].
  destruct (proj1 (@invocations_follow_profiles exact_interpreter
                     scripted_engine test_image tt w eq_refl)
              op prefix _ Hin) as [r [new [printed [Lg [_ [_ Req]]]]]].
  exists r, new, printed; split; [exact Lg|].
  rewrite Req.
  destruct Lg as [w' [E [Hc _]]].
  vm_compute in E; injection E as _ <-.
  vm_compute in Hc; subst new; reflexivity.
Defined.

(** ** The same answer in every world *)

Section Deterministic.
Context `{Interpreter} `{OcrEngine}.
Variable f : NdArray -> string -> string -> result pystr.
Hypothesis f_answers :
  forall a config lang s, fst (image_to_string a config lang s) = f a config lang.

Lemma single_call_fixed config prefix pil_img w1 w2 :
  fst (single_call config prefix pil_img w1)
  = fst (single_call config prefix pil_img w2).
Proof.
  destruct (array_of pil_img) as [e|a] eqn:A.
  - destruct (single_call_unconverted config prefix pil_img w1 e A)
      as [w1' [-> _]].
    destruct (single_call_unconverted config prefix pil_img w2 e A)
      as [w2' [-> _]].
    reflexivity.
  - pose proof (f_answers a config "eng" (engine w1)) as F1.
    pose proof (f_answers a config "eng" (engine w2)) as F2.
    destruct (image_to_string a config "eng" (engine w1)) as [o1 s1] eqn:C1.
    destruct (image_to_string a config "eng" (engine w2)) as [o2 s2] eqn:C2.
    simpl in F1, F2; subst o1 o2.
    destruct (single_call_run config prefix pil_img w1 a _ s1 A C1)
      as [w1' [-> _]].
    destruct (single_call_run config prefix pil_img w2 a _ s2 A C2)
      as [w2' [-> _]].
    reflexivity.
Qed.

Lemma single_ladder_fixed configs prefix pil_img w1 w2 :
  fst (single_ladder configs prefix pil_img w1)
  = fst (single_ladder configs prefix pil_img w2).
Proof.
  destruct (array_of pil_img) as [e|a] eqn:A.
  - destruct (single_ladder_unconverted configs prefix pil_img w1 e A)
      as [w1' [-> _]].
    destruct (single_ladder_unconverted configs prefix pil_img w2 e A)
      as [w2' [-> _]].
    reflexivity.
  - pose proof (engine_run_deterministic f a configs f_answers (engine w1))
      as F1.
    pose proof (engine_run_deterministic f a configs f_answers (engine w2))
      as F2.
    destruct (engine_run a configs (engine w1)) as [outs1 s1] eqn:R1.
    destruct (engine_run a configs (engine w2)) as [outs2 s2] eqn:R2.
    simpl in F1, F2; subst outs1 outs2.
    destruct (scan truthy (map (fun config => f a config "eng") configs))
      as [r n] eqn:S.
    destruct (single_ladder_run configs prefix pil_img w1 a _ s1 r n A R1 S)
      as [w1' [-> _]].
    destruct (single_ladder_run configs prefix pil_img w2 a _ s2 r n A R2 S)
      as [w2' [-> _]].
    reflexivity.
Qed.

Lemma extract_turn_number_fixed pil_img w1 w2 :
  fst (extract_turn_number pil_img w1) = fst (extract_turn_number pil_img w2).
Proof.
  assert (Run : forall w,
             exists w', extract_turn_number pil_img w
                        = (match array_of pil_img with
                           | inl e => handled turn_prefix (Some e) (py "")
                           | inr a =>
                               let outs :=
                                 map (fun config => f a config "eng")
                                   turn_configs in
                               handled turn_prefix (turn_cause outs outs)
                                 (two_pass_value outs)
                           end, w')).
  { intros w; destruct (array_of pil_img) as [e|a] eqn:A.
    - destruct (extract_turn_number_unconverted pil_img w e A) as [w' [-> _]].
      now exists w'.
    - pose proof (engine_run_deterministic f a turn_configs f_answers
                    (engine w)) as F1.
      destruct (engine_run a turn_configs (engine w)) as [outs1 s1] eqn:R1.
      pose proof (engine_run_deterministic f a turn_configs f_answers s1)
        as F2.
      destruct (engine_run a turn_configs s1) as [outs2 s2] eqn:R2.
      simpl in F1, F2; subst outs1 outs2.
      destruct (extract_turn_number_run pil_img w a _ s1 _ s2 A R1 R2)
        as [w' [-> _]].
      now exists w'. }
  destruct (Run w1) as [w1' ->]; destruct (Run w2) as [w2' ->]; reflexivity.
Qed.

Variable g : NdArray -> string -> string -> result OcrData.
Hypothesis g_answers :
  forall a config lang s, fst (image_to_data a config lang s) = g a config lang.

Lemma with_confidence_fixed pil_img w1 w2 :
  fst (extract_failure_text_with_confidence pil_img w1)
  = fst (extract_failure_text_with_confidence pil_img w2).
Proof.
  destruct (array_of pil_img) as [e|a] eqn:A.
  - destruct (with_confidence_unconverted pil_img w1 e A) as [w1' [-> _]].
    destruct (with_confidence_unconverted pil_img w2 e A) as [w2' [-> _]].
    reflexivity.
  - pose proof (g_answers a confidence_config "eng" (engine w1)) as G1.
    pose proof (g_answers a confidence_config "eng" (engine w2)) as G2.
    destruct (image_to_data a confidence_config "eng" (engine w1))
      as [o1 s1] eqn:C1.
    destruct (image_to_data a confidence_config "eng" (engine w2))
      as [o2 s2] eqn:C2.
    simpl in G1, G2; subst o1 o2.
    destruct (with_confidence_run pil_img w1 a _ s1 A C1) as [w1' [-> _]].
    destruct (with_confidence_run pil_img w2 a _ s2 A C2) as [w2' [-> _]].
    reflexivity.
Qed.

End Deterministic.

(** X6.  With an engine whose answers are a function of the image and the
    configuration, what an extractor answers does not depend on the world
    it is called in: not on the state the engine was left in, not on the
    invocations made before.  In particular a second call on the same
    image answers what the first call answered. *)
Theorem same_answer_in_every_world `{Interpreter} `{OcrEngine}
    (pil_img : Image) (w1 w2 : World) :
  deterministic -> deterministic_data ->
  (forall op, In op (text_extractors pil_img) -> fst (op w1) = fst (op w2)) /\
  fst (extract_failure_text_with_confidence pil_img w1)
  = fst (extract_failure_text_with_confidence pil_img w2).
Proof.
  intros [f F] [g G]; split.
  - intros op [<-|[<-|[<-|[<-|[<-|[]]]]]].
    + rewrite extract_text_shape; apply (single_call_fixed f F).
    + rewrite extract_number_shape; apply (single_call_fixed f F).
    + apply (extract_turn_number_fixed f F).
    + rewrite extract_mood_text_shape; apply (single_ladder_fixed f F).
    + rewrite extract_failure_text_shape; apply (single_ladder_fixed f F).
  - apply (with_confidence_fixed g G).
Qed.

(** [extract_turn_number] called twice in a row on an engine that answers
    by profile and counts its invocations: the second call starts from
    another engine state and answers the same text. *)
Lemma same_answer_in_every_world_witness :
  let E := fixed_engine by_profile (fun _ => inr (tokens [(py "7", 96%Z)])) in
  let w1 := @initial_world E 0 in
  let op := @extract_turn_number exact_interpreter E (@Pil E tt) in
  let w2 := snd (op w1) in
  (@deterministic E /\ @deterministic_data E) /\
  engine w2 = 4 /\
  fst (op w2) = fst (op w1) /\
  fst (op w1) = inr (py "Turn").
Proof.
  intros E w1 op w2.
  assert (D : @deterministic E)
    by (exists (fun _ config _ => by_profile config); reflexivity).
  assert (D' : @deterministic_data E)
    by (exists (fun _ _ _ => inr (tokens [(py "7", 96%Z)])); reflexivity).
  split; [split; assumption|]; split; [reflexivity|]; split; [|reflexivity].
  apply (proj1 (@same_answer_in_every_world exact_interpreter E (@Pil E tt)
                  w2 w1 D D')).
  right; right; left; reflexivity.
Defined.

(** ** The single-profile extractors and [extract_mood_text] *)

(** Trimming removes white space at the two ends and nothing else. *)
Lemma strip_split (s : pystr) :
  exists pre post,
    s = pre ++ strip s ++ post /\ blank pre = true /\ blank post = true.
Proof.
  destruct (lstrip_split s) as [p [Ep Hp]].
  destruct (lstrip_split (rev (lstrip s))) as [q [Eq Hq]].
  exists p, (rev q); split; [|split; [exact Hp|]].
  - unfold strip, rstrip.
    rewrite <- rev_app_distr, <- Eq, rev_involutive; exact Ep.
  - unfold blank in *; rewrite forallb_forall in *.
    intros c Hc; apply Hq, in_rev; exact Hc.
Qed.

(** X7.  [extract_text] and [extract_number] invoke the engine once, with
    the uniform-block profile and the single-line profile.  When the
    engine answers a text they return that text with white space removed
    at its two ends and nothing else changed, whatever the text is. *)
Theorem single_profile_answer `{Interpreter} `{OcrEngine}
    (pil_img : Image) (a : NdArray) (w : World) :
  array_of pil_img = inr a ->
  (mode_of text_config = Some UniformBlock /\
   whitelist_of text_config = Some text_whitelist /\
   forall raw s,
     image_to_string a text_config "eng" (engine w) = (inr raw, s) ->
     returns (extract_text pil_img) w (strip raw)
       [StringCall text_config "eng" (inr raw)] /\
     exists pre post,
       raw = pre ++ strip raw ++ post /\
       blank pre = true /\ blank post = true) /\
  (mode_of number_config = Some SingleLine /\
   whitelist_of number_config = Some (digits_whitelist ++ " ")%string /\
   forall raw s,
     image_to_string a number_config "eng" (engine w) = (inr raw, s) ->
     returns (extract_number pil_img) w (strip raw)
       [StringCall number_config "eng" (inr raw)] /\
     exists pre post,
       raw = pre ++ strip raw ++ post /\
       blank pre = true /\ blank post = true).
Proof.
  intros A; split; (split; [reflexivity|]; split; [reflexivity|]);
    intros raw s C; (split; [|apply strip_split]).
  - rewrite extract_text_shape.
    exact (ends_returns _ _ _ _ _
             (single_call_run text_config _ pil_img w a (inr raw) s A C)).
  - rewrite extract_number_shape.
    exact (ends_returns _ _ _ _ _
             (single_call_run number_config _ pil_img w a (inr raw) s A C)).
Qed.

(** The engine answers a line feed, "Lv 3 (max)", a space and a line feed:
    [extract_text] returns "Lv 3 (max)". *)
Lemma single_profile_answer_witness :
  let raw := ([10%N] ++ py "Lv 3 (max)" ++ [32; 10]%N) in
  let w := playing [inr raw] in
  array_of test_image = inr tt /\
  returns (@extract_text exact_interpreter scripted_engine test_image) w (py "Lv 3 (max)")
    [StringCall text_config "eng" (inr raw)].
Proof.
  intros raw w; split; [reflexivity|].
  exact (proj1 (proj2 (proj2 (proj1
    (@single_profile_answer exact_interpreter scripted_engine test_image tt
       w eq_refl)))
    raw {| string_answers := []; data_answers := [] |} eq_refl)).
Defined.

(** X8.  [extract_mood_text] has three profiles, all with the whitelist of
    the 52 Latin letters, in the order single word, single line, uniform
    block.  It returns the trimmed text of the first answer whose trimmed
    text is non-empty, having invoked the profiles up to that one in
    order, and the empty string when the three answers are empty. *)
Theorem extract_mood_text_policy `{Interpreter} `{OcrEngine}
    (pil_img : Image) (a : NdArray) (w : World)
    (outs : list (result pystr)) (s : EngineState) :
  array_of pil_img = inr a ->
  engine_run a mood_configs (engine w) = (outs, s) ->
  map mode_of mood_configs
  = [Some SingleWord; Some SingleLine; Some UniformBlock] /\
  map whitelist_of mood_configs = repeat (Some mood_whitelist) 3 /\
  (forall k raw,
     first_accepted truthy outs k raw ->
     returns (extract_mood_text pil_img) w (strip raw)
       (firstn (S k) (trace mood_configs outs))) /\
  (all_rejected truthy outs ->
   returns (extract_mood_text pil_img) w (py "")
     (trace mood_configs outs)).
Proof.
  intros A R.
  split; [reflexivity|]; split; [reflexivity|].
  rewrite extract_mood_text_shape.
  pose proof (engine_run_length _ _ _ _ _ R) as L.
  split.
  - intros k raw F.
    exact (ends_returns _ _ _ _ _
             (single_ladder_run mood_configs _ pil_img w a outs s _ _
                A R (scan_first _ _ _ _ F))).
  - intros Rj.
    destruct (single_ladder_run mood_configs
                "[WARNING] Mood text extraction failed: " pil_img w a outs s
                _ _ A R (scan_all_rejected _ _ Rj)) as [w' [E [Hc _]]].
    exists w'; split; [exact E|].
    now rewrite trace_whole in Hc by exact L.
Qed.

(** The single-word and single-line profiles answer white space, the
    uniform-block profile answers "GREAT": it is returned after three
    invocations. *)
Lemma extract_mood_text_policy_witness :
  let w := playing [inr (py " "); inr [10%N]; inr (py "GREAT")] in
  let outs : list (result pystr) :=
    [inr (py " "); inr [10%N]; inr (py "GREAT")] in
  let done := {| string_answers := []; data_answers := [] |} in
  (array_of test_image = inr tt /\
   @engine_run scripted_engine tt mood_configs (engine w) = (outs, done)) /\
  returns (@extract_mood_text exact_interpreter scripted_engine test_image) w (py "GREAT")
    (trace mood_configs outs).
Proof.
  intros w outs done.
  split; [repeat split|].
  refine (proj1 (proj2 (proj2
    (@extract_mood_text_policy exact_interpreter scripted_engine
       test_image tt w outs done eq_refl eq_refl)))
    2 (py "GREAT") _).
  split; [reflexivity|]; split; [reflexivity|].
  intros j Hj.
  destruct j as [|[|j]]; [exists (py " ")|exists [10%N]|lia];
    split; reflexivity.
Defined.

(** ** extract_failure_text_with_confidence on any answer *)

Lemma lstrip_blank (s : pystr) : blank s = true -> lstrip s = [].
Proof.
  unfold blank; induction s as [|c s IH]; [reflexivity|]; simpl.
  rewrite andb_true_iff; intros [-> Hs]; auto.
Qed.

(** A text is kept by the loop exactly when it is not white space only. *)
Lemma strip_blank (s : pystr) : truthy (strip s) = negb (blank s).
Proof.
  destruct (blank s) eqn:B; simpl.
  - unfold strip, rstrip; now rewrite (lstrip_blank s B).
  - destruct (strip s) as [|c r] eqn:E; [exfalso|reflexivity].
    destruct (strip_split s) as [pre [post [Es [Hpre Hpost]]]].
    rewrite E in Es; simpl in Es.
    unfold blank in *; rewrite Es, forallb_app, Hpre, Hpost in B.
    discriminate.
Qed.

Lemma enumerate_from_In {A} (l : list A) :
  forall k i x,
    nth_error l i = Some x ->
    In (k + i, x) (combine (seq k (List.length l)) l).
Proof.
  induction l as [|y l IH]; intros k [|i] x N; simpl in N; try discriminate.
  - injection N as ->; rewrite Nat.add_0_r; now left.
  - right; rewrite <- Nat.add_succ_comm; apply IH; exact N.
Qed.

Lemma enumerate_In {A} (l : list A) (i : nat) (x : A) :
  nth_error l i = Some x -> In (i, x) (enumerate l).
Proof. apply (enumerate_from_In l 0 i x). Qed.

Lemma token_loop_blank d items :
  (forall it, In it items -> blank (snd it) = true) ->
  forall ps cs, token_loop d items ps cs = inr (ps, cs).
Proof.
  induction items as [|[i text] items IH]; intros B ps cs; [reflexivity|].
  pose proof (B (i, text) (or_introl eq_refl)) as Bt; simpl in Bt.
  simpl; rewrite strip_blank, Bt; simpl.
  apply IH; intros it Hit; apply B; now right.
Qed.

Lemma token_loop_no_conf d items :
  column_conf d = None ->
  (exists it, In it items /\ blank (snd it) = false) ->
  forall ps cs, token_loop d items ps cs = inl (KeyError "conf").
Proof.
  intros Col; induction items as [|[i text] items IH];
    intros [it [Hin Hb]] ps cs; [destruct Hin|].
  simpl; rewrite strip_blank.
  destruct (blank text) eqn:B; simpl.
  - apply IH; exists it; split; [|exact Hb].
    destruct Hin as [<-|Hin]; [simpl in Hb; congruence|exact Hin].
  - unfold getitem_conf; now rewrite Col.
Qed.

Lemma token_loop_short d col items :
  column_conf d = Some col ->
  (exists i text, In (i, text) items /\ blank text = false
                  /\ List.length col <= i) ->
  forall ps cs, token_loop d items ps cs = inl IndexError.
Proof.
  intros Col; induction items as [|[j text'] items IH];
    intros [i [text [Hin [Hb Hi]]]] ps cs; [destruct Hin|].
  simpl; rewrite strip_blank.
  assert (Rest : In (i, text) items ->
                 forall ps cs, token_loop d items ps cs = inl IndexError)
    by (intros Hr; apply IH; exists i, text; auto).
  destruct (blank text') eqn:B; simpl.
  - destruct Hin as [E|Hin]; [injection E as -> ->; congruence|now apply Rest].
  - unfold getitem_conf; rewrite Col; simpl; unfold list_getitem.
    destruct (nth_error col j) as [c|] eqn:N; simpl; [|reflexivity].
    destruct Hin as [E|Hin]; [|now apply Rest].
    injection E as -> ->.
    apply nth_error_None in Hi; congruence.
Qed.

(** X9.  The answers of [image_to_data] the loop cannot read.  Without a
    'text' column the function answers [("", 0.0)] and prints the
    [KeyError].  When every text is white space only, the 'conf' column is
    never read: the answer is [("", 0.0)] and nothing is printed, also if
    that column is absent.  When some text is not white space only, an
    absent 'conf' column gives [("", 0.0)] with a [KeyError], and a 'conf'
    column too short for the index of such a text gives [("", 0.0)] with
    an [IndexError]. *)
Theorem unreadable_token_columns `{Interpreter} `{OcrEngine}
    (pil_img : Image) (a : NdArray) (w : World)
    (d : OcrData) (s : EngineState) :
  array_of pil_img = inr a ->
  image_to_data a confidence_config "eng" (engine w) = (inr d, s) ->
  let op := extract_failure_text_with_confidence pil_img in
  let new := [DataCall confidence_config "eng" (inr d)] in
  (column_text d = None ->
   logs op w (py "", 0%Q) new [warning confidence_prefix (KeyError "text")]) /\
  (forall texts,
     column_text d = Some texts ->
     forallb blank texts = true ->
     logs op w (py "", 0%Q) new []) /\
  (forall texts,
     column_text d = Some texts ->
     existsb (fun text => negb (blank text)) texts = true ->
     column_conf d = None ->
     logs op w (py "", 0%Q) new [warning confidence_prefix (KeyError "conf")]) /\
  (forall texts col i text,
     column_text d = Some texts ->
     column_conf d = Some col ->
     nth_error texts i = Some text ->
     blank text = false ->
     List.length col <= i ->
     logs op w (py "", 0%Q) new [warning confidence_prefix IndexError]).
Proof.
  intros A C op new.
  pose proof (with_confidence_run pil_img w a (inr d) s A C) as Lg.
  unfold confidence_value, confidence_cause in Lg.
  assert (Raised : forall e,
             writable confidence_prefix e = true ->
             text_and_confidence d = inl e ->
             logs op w (py "", 0%Q) new [warning confidence_prefix e]).
  { intros e W T; rewrite T in Lg; simpl in Lg; rewrite W in Lg; exact Lg. }
  split; [|split; [|split]].
  - intros Tx; apply Raised; [reflexivity|].
    unfold text_and_confidence, getitem_text; now rewrite Tx.
  - intros texts Tx B.
    assert (T : text_and_confidence d = inr (py "", 0%Q)).
    { unfold text_and_confidence, getitem_text; rewrite Tx; simpl.
      rewrite token_loop_blank; [reflexivity|].
      intros [i text] Hit; simpl.
      rewrite forallb_forall in B; apply B.
      apply (in_combine_r _ _ _ _ Hit). }
    rewrite T in Lg; exact Lg.
  - intros texts Tx Ex Col; apply Raised; [reflexivity|].
    unfold text_and_confidence, getitem_text; rewrite Tx; simpl.
    rewrite (token_loop_no_conf d _ Col); [reflexivity|].
    apply existsb_exists in Ex; destruct Ex as [text [Hin Hb]].
    apply In_nth_error in Hin; destruct Hin as [i Hi].
    exists (i, text); split; [now apply enumerate_In|].
    simpl; now apply negb_true_iff.
  - intros texts col i text Tx Col N Hb Hi; apply Raised; [reflexivity|].
    unfold text_and_confidence, getitem_text; rewrite Tx; simpl.
    rewrite (token_loop_short d col _ Col); [reflexivity|].
    exists i, text; split; [now apply enumerate_In|auto].
Qed.

(** Three texts and two confidences: the third text has no confidence. *)
Lemma unreadable_token_columns_witness :
  let d := {| column_text := Some [py "12"; py " "; py "%"];
              column_conf := Some [90; -1]%Z |} in
  let w := playing_data [inr d] in
  let done := {| string_answers := []; data_answers := [] |} in
  (array_of test_image = inr tt /\
   @image_to_data scripted_engine tt confidence_config "eng" (engine w)
   = (inr d, done)) /\
  logs (@extract_failure_text_with_confidence exact_interpreter
          scripted_engine test_image) w (py "", 0%Q)
    [DataCall confidence_config "eng" (inr d)]
    [warning confidence_prefix IndexError].
Proof.
  intros d w done.
  split; [repeat split|].
  refine (proj2 (proj2 (proj2
    (@unreadable_token_columns exact_interpreter scripted_engine
       test_image tt w d done eq_refl eq_refl)))
    [py "12"; py " "; py "%"] [90; -1]%Z 2 (py "%")
    eq_refl eq_refl eq_refl eq_refl _).
  simpl; lia.
Defined.

Lemma not_blank_char (s : pystr) :
  blank s = false -> exists c, In c s /\ isspace_char c = false.
Proof.
  unfold blank; induction s as [|x s IH]; simpl; [discriminate|].
  destruct (isspace_char x) eqn:X; simpl.
  - intros B; destruct (IH B) as [c [Hc Hs]]; exists c; auto.
  - intros _; exists x; auto.
Qed.

Lemma join_head (sep p : pystr) (rest : list pystr) (c : pychar) :
  In c p -> In c (join sep (p :: rest)).
Proof.
  intros Hc; destruct rest as [|q rest]; [exact Hc|].
  change (join sep (p :: q :: rest)) with (p ++ sep ++ join sep (q :: rest)).
  apply in_or_app; now left.
Qed.

(** The texts the loop keeps: those that are not white space only, in
    order. *)
Lemma token_loop_parts d items :
  forall ps cs ps' cs',
    token_loop d items ps cs = inr (ps', cs') ->
    ps' = ps ++ map snd (filter (fun it => negb (blank (snd it))) items).
Proof.
  induction items as [|[i text] items IH]; simpl; intros ps cs ps' cs' E.
  - injection E as <- _; now rewrite app_nil_r.
  - rewrite strip_blank in E.
    destruct (blank text); simpl in *; [eauto|].
    unfold getitem_conf in E.
    destruct (column_conf d) as [col|]; simpl in E; [|discriminate].
    unfold list_getitem in E.
    destruct (nth_error col i) as [c|]; simpl in E; [|discriminate].
    rewrite (IH _ _ _ _ E), <- app_assoc; reflexivity.
Qed.

Lemma joined_parts_not_empty (p : pystr) (rest : list pystr) :
  blank p = false -> truthy (strip (join (py " ") (p :: rest))) = true.
Proof.
  intros B; destruct (not_blank_char p B) as [c [Hc Hs]].
  pose proof (strip_keeps _ c (join_head (py " ") p rest c Hc) Hs) as Hin.
  destruct (strip (join (py " ") (p :: rest))); [destruct Hin|reflexivity].
Qed.

Lemma kept_in_enumerate (texts : list pystr) :
  filter (fun it : nat * pystr => negb (blank (snd it))) (enumerate texts) = []
  <-> forallb blank texts = true.
Proof.
  unfold enumerate; generalize 0.
  induction texts as [|text texts IH]; intros k; simpl; [tauto|].
  destruct (blank text); simpl; [apply IH|].
  split; discriminate.
Qed.

(** X10.  Text and confidence go together.  Whatever the engine answers,
    when the text [extract_failure_text_with_confidence] answers is empty
    its confidence is exactly 0.0; the call answers unless the [print] of
    its handler raised.  And when the computation on the engine's answer
    succeeds, the text is non-empty exactly when some text of the answer
    is not white space only. *)
Theorem text_and_confidence_go_together `{Interpreter} `{OcrEngine}
    (pil_img : Image) (w : World) :
  (exists r w',
     extract_failure_text_with_confidence pil_img w = (r, w') /\
     unless_print_raised
       (fun v => truthy (fst v) = false -> snd v = 0%Q) r) /\
  (forall d t c,
     text_and_confidence d = inr (t, c) ->
     (truthy t = false -> c = 0%Q) /\
     (truthy t = true <->
      exists texts,
        column_text d = Some texts /\
        existsb (fun text => negb (blank text)) texts = true)).
Proof.
  assert (Pure : forall d t c,
     text_and_confidence d = inr (t, c) ->
     (truthy t = false -> c = 0%Q) /\
     (truthy t = true <->
      exists texts,
        column_text d = Some texts /\
        existsb (fun text => negb (blank text)) texts = true)).
  { intros d t c E.
    destruct (getitem_text d) as [e|texts] eqn:T;
      [unfold text_and_confidence in E; rewrite T in E; discriminate|].
    assert (Tx : column_text d = Some texts)
      by (unfold getitem_text in T; destruct (column_text d); congruence).
    destruct (token_loop d (enumerate texts) [] []) as [e|[parts confs]] eqn:K;
      [unfold text_and_confidence in E; rewrite T in E; simpl in E;
       rewrite K in E; discriminate|].
    rewrite (text_and_confidence_value d texts parts confs T K) in E.
    pose proof (token_loop_parts d _ _ _ _ _ K) as P; simpl in P.
    destruct parts as [|p parts].
    - injection E as <- <-; split; [reflexivity|].
      split; [discriminate|].
      intros [texts' [Tx' Ex]].
      assert (texts' = texts) by congruence; subst texts'.
      symmetry in P; apply map_eq_nil in P; apply kept_in_enumerate in P.
      exfalso; clear - P Ex.
      induction texts as [|x texts IH]; simpl in *; [discriminate|].
      apply andb_true_iff in P; destruct P as [Px Pt].
      rewrite Px in Ex; simpl in Ex; auto.
    - assert (Bp : blank p = false).
      { assert (Hin : In p (map snd (filter
                  (fun it : nat * pystr => negb (blank (snd it)))
                  (enumerate texts))))
          by (rewrite <- P; now left).
        apply in_map_iff in Hin; destruct Hin as [[i x] [<- Hf]].
        apply filter_In in Hf; destruct Hf as [_ Hf].
        now apply negb_true_iff in Hf. }
      assert (Et : t = strip (join (py " ") (p :: parts))) by congruence.
      rewrite Et, (joined_parts_not_empty p parts Bp).
      split; [discriminate|]; split; [|reflexivity].
      intros _; exists texts; split; [exact Tx|].
      destruct (existsb (fun text => negb (blank text)) texts) eqn:Ex;
        [reflexivity|exfalso].
      assert (All : forallb blank texts = true).
      { clear - Ex; induction texts as [|x texts IH]; [reflexivity|].
        simpl in *; apply orb_false_iff in Ex; destruct Ex as [Ex1 Ex2].
        apply negb_false_iff in Ex1; rewrite Ex1; auto. }
      apply kept_in_enumerate in All; rewrite All in P; discriminate. }
  split; [|exact Pure].
  destruct (array_of pil_img) as [e|a] eqn:A.
  - destruct (with_confidence_unconverted pil_img w e A) as [w' [E _]].
    do 2 eexists; split; [exact E|].
    now apply handled_unless.
  - destruct (image_to_data a confidence_config "eng" (engine w))
      as [o s] eqn:C.
    destruct (with_confidence_run pil_img w a o s A C) as [w' [E _]].
    do 2 eexists; split; [exact E|].
    apply handled_unless.
    destruct o as [e|d]; simpl; [reflexivity|].
    destruct (text_and_confidence d) as [e|[t c]] eqn:T; [reflexivity|].
    apply (Pure d t c T).
Qed.

(** Two texts that are white space only: the text is empty and the
    confidence 0.0, although the listed confidences are 95 and 90. *)
Lemma text_and_confidence_go_together_witness :
  let d := tokens [(py " ", 95%Z); ([10%N], 90%Z)] in
  @text_and_confidence latin1_interpreter d = inr (py "", 0%Q) /\
  forall t c,
    @text_and_confidence latin1_interpreter d = inr (t, c) ->
    truthy t = false /\ c = 0%Q.
Proof.
  intros d; split; [reflexivity|].
  intros t c E.
  destruct (proj2 (@text_and_confidence_go_together latin1_interpreter
                     scripted_engine test_image (playing [])) d t c E)
    as [Zero _].
  assert (Em : truthy t = false)
    by (vm_compute in E; now injection E as <- _).
  split; [exact Em|exact (Zero Em)].
Defined.

Lemma fold_add_between (lo hi : Z) (xs : list Z) :
  (forall c, In c xs -> lo <= c <= hi)%Z ->
  forall acc : Z,
    (acc + lo * len xs <= fold_left Z.add xs acc <= acc + hi * len xs)%Z.
Proof.
  unfold len; induction xs as [|x xs IH]; intros Hx acc; simpl fold_left.
  - simpl; lia.
  - assert (lo <= x <= hi)%Z by (apply Hx; now left).
    specialize (IH (fun c Hc => Hx c (or_intror Hc)) (acc + x)%Z).
    rewrite length_cons, Nat2Z.inj_succ; lia.
Qed.

Section Between.
Context `{Interpreter}.

Lemma average_between (L : RoundingLaws) (a n lo hi : Z) :
  (0 < n)%Z -> (lo * n <= a <= hi * n)%Z ->
  (Z.abs lo <= 2 ^ 53)%Z -> (Z.abs hi <= 2 ^ 53)%Z ->
  (rnd (inject_Z lo / 100) <= rnd (rnd (inject_Z a / inject_Z n) / 100)
   <= rnd (inject_Z hi / 100))%Q.
Proof.
  intros Hn Ha Hlo Hhi.
  assert (Qn : (0 < inject_Z n)%Q) by (unfold Qlt; cbn -[Z.mul]; lia).
  assert (M : (inject_Z lo <= inject_Z a / inject_Z n <= inject_Z hi)%Q).
  { split.
    - apply Qle_shift_div_l; [exact Qn|].
      rewrite <- inject_Z_mult, <- Zle_Qle; lia.
    - apply Qle_shift_div_r; [exact Qn|].
      rewrite <- inject_Z_mult, <- Zle_Qle; lia. }
  assert (R : (inject_Z lo <= rnd (inject_Z a / inject_Z n) <= inject_Z hi)%Q).
  { split.
    - rewrite <- (rnd_integer L lo Hlo); apply (rnd_monotone L), M.
    - rewrite <- (rnd_integer L hi Hhi); apply (rnd_monotone L), M. }
  split; apply (rnd_monotone L);
    (apply Qmult_le_compat_r; [apply R|discriminate]).
Qed.

End Between.

(** X11.  On an answer that lists the tokens [toks], of which at least one
    is kept, the confidence lies between the smallest and the largest
    confidence of the kept tokens, divided by 100: with [lo] and [hi]
    bounding the confidences of the kept tokens, it is at least the float
    [lo / 100.0] and at most the float [hi / 100.0].  The confidences of
    the tokens that are not kept play no part. *)
Theorem confidence_between_kept `{Interpreter} `{OcrEngine}
    (L : RoundingLaws) (pil_img : Image) (a : NdArray) (w : World)
    (toks : list (pystr * Z)) (s : EngineState) (lo hi : Z) :
  array_of pil_img = inr a ->
  image_to_data a confidence_config "eng" (engine w)
  = (inr (tokens toks), s) ->
  existsb kept toks = true ->
  (forall tok, In tok toks -> kept tok = true -> lo <= snd tok <= hi)%Z ->
  (Z.abs lo <= 2 ^ 53)%Z -> (Z.abs hi <= 2 ^ 53)%Z ->
  exists t c,
    returns (extract_failure_text_with_confidence pil_img) w (t, c)
      [DataCall confidence_config "eng" (inr (tokens toks))] /\
    truthy t = true /\
    (rnd (inject_Z lo / 100) <= c <= rnd (inject_Z hi / 100))%Q.
Proof.
  intros A C Ex Hb Hlo Hhi.
  destruct (with_confidence_run pil_img w a _ s A C) as [w' [E [Hc _]]].
  unfold confidence_value, confidence_cause in E.
  rewrite text_and_confidence_tokens in E; cbn [cause_of handled] in E.
  assert (Hk : forall tok, In tok (filter kept toks) ->
                           (lo <= snd tok <= hi)%Z).
  { intros tok Hin; apply filter_In in Hin; destruct Hin as [Hin K]; auto. }
  destruct (filter kept toks) as [|[p c0] keep] eqn:F.
  - exfalso; apply existsb_exists in Ex; destruct Ex as [tok [Hin K]].
    assert (Hf : In tok (filter kept toks)) by (apply filter_In; auto).
    rewrite F in Hf; destruct Hf.
  - do 2 eexists; split; [exists w'; split; [exact E|exact Hc]|]; split.
    + apply joined_parts_not_empty.
      assert (K : kept (p, c0) = true).
      { assert (Hf : In (p, c0) (filter kept toks)) by (rewrite F; now left).
        apply filter_In in Hf; apply Hf. }
      unfold kept in K; simpl in K; rewrite strip_blank in K.
      now apply negb_true_iff in K.
    + unfold average; apply (average_between L).
      * unfold len; simpl; lia.
      * assert (Hx : forall x, In x (map snd ((p, c0) :: keep)) ->
                               (lo <= x <= hi)%Z).
        { intros x Hin; apply in_map_iff in Hin.
          destruct Hin as [tok [<- Ht]]; exact (Hk tok Ht). }
        pose proof (fold_add_between lo hi _ Hx 0%Z) as B.
        unfold sum; lia.
      * exact Hlo.
      * exact Hhi.
Qed.

(** Confidences 90 and 80 on the kept tokens, -1 on a row of white space:
    on binary64 the confidence lies between the floats 0.8 and 0.9. *)
Lemma confidence_between_kept_witness :
  let toks := [(py "12", 90%Z); (py " ", (-1)%Z); (py "%", 80%Z)] in
  let w := playing_data [inr (tokens toks)] in
  let done := {| string_answers := []; data_answers := [] |} in
  (array_of test_image = inr tt /\
   @image_to_data scripted_engine tt confidence_config "eng" (engine w)
   = (inr (tokens toks), done) /\
   existsb kept toks = true) /\
  exists t c,
    returns (@extract_failure_text_with_confidence latin1_interpreter
               scripted_engine test_image) w (t, c)
      [DataCall confidence_config "eng" (inr (tokens toks))] /\
    truthy t = true /\
    (rnd64 (80 # 100) <= c <= rnd64 (90 # 100))%Q.
Proof.
  intros toks w done.
  split; [repeat split|].
  apply (@confidence_between_kept latin1_interpreter scripted_engine
           binary64_rounding test_image tt w toks done 80%Z 90%Z
           eq_refl eq_refl eq_refl).
  - intros tok [<-|[<-|[<-|[]]]] K; simpl; try lia.
    vm_compute in K; discriminate.
  - vm_compute; discriminate.
  - vm_compute; discriminate.
Defined.

Lemma last_default {A} (l : list A) (d1 d2 : A) :
  l <> [] -> last l d1 = last l d2.
Proof.
  induction l as [|x [|y l] IH]; intros N; [congruence|reflexivity|].
  change (last (y :: l) d1 = last (y :: l) d2); apply IH; discriminate.
Qed.

Lemma last_of_app {A} (l1 l2 : list A) (d : A) :
  l2 <> [] -> last (l1 ++ l2) d = last l2 d.
Proof.
  intros N; induction l1 as [|x l1 IH]; [reflexivity|].
  simpl app; destruct (l1 ++ l2) eqn:E.
  - destruct l1; simpl in E; [congruence|discriminate].
  - exact IH.
Qed.

Lemma lstrip_fixed_head (s : pystr) (c : pychar) (r : pystr) :
  s = c :: r -> isspace_char c = false -> lstrip s = s.
Proof. intros -> Hc; simpl; now rewrite Hc. Qed.

(** Trimming changes nothing in a text that has no white space at its
    ends. *)
Lemma strip_fixed (s : pystr) : trimmed s = true -> strip s = s.
Proof.
  destruct s as [|c r]; [reflexivity|].
  unfold trimmed, edges_ok; rewrite andb_true_iff, !negb_true_iff.
  intros [Hc Hl]; unfold strip, rstrip.
  rewrite (lstrip_fixed_head (c :: r) c r eq_refl Hc).
  assert (E : c :: r = removelast (c :: r) ++ [last (c :: r) c])
    by (apply app_removelast_last; discriminate).
  assert (R : rev (c :: r)
              = last (c :: r) c :: rev (removelast (c :: r)))
    by (rewrite E at 1; now rewrite rev_app_distr).
  rewrite R, (lstrip_fixed_head _ _ _ eq_refl Hl), <- R.
  apply rev_involutive.
Qed.

Lemma trimmed_around (x mid y : pystr) :
  truthy x = true -> truthy y = true ->
  trimmed x = true -> trimmed y = true ->
  trimmed (x ++ mid ++ y) = true.
Proof.
  destruct x as [|c x]; [discriminate|]; destruct y as [|e y]; [discriminate|].
  unfold trimmed, edges_ok; intros _ _.
  rewrite !andb_true_iff; intros [Hc _] [_ Hy]; simpl app.
  rewrite andb_true_iff; split; [exact Hc|].
  replace (c :: x ++ mid ++ e :: y) with ((c :: x ++ mid) ++ e :: y)
    by (simpl; now rewrite <- app_assoc).
  rewrite last_of_app by discriminate.
  now rewrite (last_default (e :: y) c e) by discriminate.
Qed.

Lemma join_trimmed (parts : list pystr) :
  (forall p, In p parts -> truthy p = true /\ trimmed p = true) ->
  trimmed (join (py " ") parts) = true /\
  (parts <> [] -> truthy (join (py " ") parts) = true).
Proof.
  induction parts as [|p [|q rest] IH]; intros Hp.
  - split; [reflexivity|congruence].
  - destruct (Hp p (or_introl eq_refl)) as [T R]; simpl; auto.
  - destruct (Hp p (or_introl eq_refl)) as [T R].
    destruct (IH (fun x Hx => Hp x (or_intror Hx))) as [RJ TJ].
    specialize (TJ ltac:(discriminate)).
    change (join (py " ") (p :: q :: rest))
      with (p ++ py " " ++ join (py " ") (q :: rest)).
    split; [now apply trimmed_around|].
    intros _; destruct p; [discriminate|reflexivity].
Qed.

(** X12.  On an answer that lists the tokens [toks], when no kept token
    has white space at the ends of its text, the text answered is exactly
    the texts of the kept tokens joined with single spaces: the final
    trimming changes nothing. *)
Theorem text_is_joined_tokens `{Interpreter} `{OcrEngine}
    (pil_img : Image) (a : NdArray) (w : World)
    (toks : list (pystr * Z)) (s : EngineState) :
  array_of pil_img = inr a ->
  image_to_data a confidence_config "eng" (engine w)
  = (inr (tokens toks), s) ->
  (forall tok, In tok toks -> kept tok = true -> trimmed (fst tok) = true) ->
  exists c,
    returns (extract_failure_text_with_confidence pil_img) w
      (join (py " ") (map fst (filter kept toks)), c)
      [DataCall confidence_config "eng" (inr (tokens toks))].
Proof.
  intros A C Ht.
  destruct (with_confidence_run pil_img w a _ s A C) as [w' [E [Hc _]]].
  unfold confidence_value, confidence_cause in E.
  rewrite text_and_confidence_tokens in E; cbn [cause_of handled] in E.
  assert (Parts : forall p, In p (map fst (filter kept toks)) ->
                            truthy p = true /\ trimmed p = true).
  { intros p Hin; apply in_map_iff in Hin; destruct Hin as [tok [<- Hf]].
    apply filter_In in Hf; destruct Hf as [Hin K].
    split; [|now apply Ht].
    unfold kept in K; destruct (fst tok); [discriminate K|reflexivity]. }
  destruct (filter kept toks) as [|tok keep] eqn:F.
  - exists 0%Q, w'; split; [exact E|exact Hc].
  - exists (average (map snd (tok :: keep))), w'; split; [|exact Hc].
    rewrite E; cbv zeta.
    rewrite (strip_fixed _ (proj1 (join_trimmed _ Parts))); reflexivity.
Qed.

(** The tokens "30%" and "(Lv2)" around a row of white space. *)
Lemma text_is_joined_tokens_witness :
  let toks := [(py "30%", 91%Z); (py " ", (-1)%Z); (py "(Lv2)", 78%Z)] in
  let w := playing_data [inr (tokens toks)] in
  let done := {| string_answers := []; data_answers := [] |} in
  (array_of test_image = inr tt /\
   @image_to_data scripted_engine tt confidence_config "eng" (engine w)
   = (inr (tokens toks), done)) /\
  exists c,
    returns (@extract_failure_text_with_confidence latin1_interpreter
               scripted_engine test_image) w (py "30% (Lv2)", c)
      [DataCall confidence_config "eng" (inr (tokens toks))].
Proof.
  intros toks w done.
  split; [repeat split|].
  apply (@text_is_joined_tokens latin1_interpreter scripted_engine
           test_image tt w toks done eq_refl eq_refl).
  intros tok [<-|[<-|[<-|[]]]] K; try reflexivity.
  vm_compute in K; discriminate.
Defined.




